(** * Todo backend: authentication core and ownership-scoped todo routes

    A shallow embedding of [backend/src/core/security.py],
    [backend/src/api/auth.py] and [backend/src/api/todos.py].

    Python functions become Rocq functions.  A call that may raise returns a
    [result]; the wall clock read by [datetime.utcnow()] is an explicit
    argument [now]; the random salt drawn by the hasher and the fresh id drawn
    for a new row are explicit arguments as well.  Dictionaries are [gmap]s
    keyed by strings, the user and todo tables are lists of rows. *)

From Stdlib Require Import ZArith Lia Ascii String.
From stdpp Require Import base option list strings gmap countable.

Local Open Scope string_scope.
Local Open Scope Z_scope.

(** ** Python outcomes *)

(** The exceptions the code distinguishes: FastAPI's [HTTPException], which
    the route handlers re-raise untouched, and every other exception, kept as
    its class name and its [str(e)] text. *)
Inductive exn : Type :=
| HTTPException (status_code : Z) (detail : string) (headers : list (string * string))
| Exception (cls : string) (msg : string).

Inductive result (A : Type) : Type :=
| Return (a : A)
| Raise (e : exn).
Arguments Return {A} a.
Arguments Raise {A} e.

(** Sequencing: the first exception raised ends the computation. *)
Global Instance result_bind : MBind result := λ A B k r,
  match r with
  | Return a => k a
  | Raise e => Raise e
  end.

(** [str(e)] *)
Definition exn_str (e : exn) : string :=
  match e with
  | HTTPException _ detail _ => detail
  | Exception _ msg => msg
  end.

Definition is_Return {A} (r : result A) : bool :=
  match r with Return _ => true | Raise _ => false end.

(** ** Python values held in dictionaries and token payloads

    Identifiers are 128-bit integers ([UUID.int]); a [datetime] and a
    [timedelta] are counts of microseconds, the resolution of both types.
    JSON numbers are modelled by integers.  Arrays and objects nested in a
    payload are left out: the code reads no entry that holds one, and where
    one could stand the code treats it as it treats a number. *)
Definition uuid := N.
Definition datetime := Z.
Definition timedelta := Z.

Inductive value : Type :=
| VNone
| VBool (b : bool)
| VInt (z : Z)
| VStr (s : string)
| VDatetime (t : datetime).

Global Instance value_eq_dec : EqDecision value.
Proof. solve_decision. Defined.

(** Python truth value of an object, as tested by [if not x]. *)
Definition truthy (v : value) : bool :=
  match v with
  | VNone => false
  | VBool b => b
  | VInt z => negb (Z.eqb z 0)
  | VStr s => negb (String.eqb s "")
  | VDatetime _ => true
  end.

(** [d.get(k)]: the entry, or [None] when the key is absent. *)
Definition dict_get (d : gmap string value) (k : string) : value :=
  default VNone (d !! k).

Definition microsecond : Z := 1.
Definition second : Z := 1000000.

(** [timedelta(days=d)] *)
Definition timedelta_days (d : Z) : timedelta := d * 24 * 60 * 60 * second.

(** [timegm(dt.utctimetuple())]: whole seconds since the epoch, the
    microseconds dropped. *)
Definition timegm (dt : datetime) : Z := dt `div` second.

(** ** core/config.py *)

Record Settings : Type := {
  better_auth_secret : string;
  jwt_algorithm : string;
  jwt_expiry_days : Z
}.

(** The defaults of the [Field] declarations; the secret has none. *)
Definition default_jwt_algorithm : string := "HS256".
Definition default_jwt_expiry_days : Z := 7.

(** ** Rows of the credential store and of the todo table *)

(** The columns of [models/user.py] that the code reads: [user.id],
    [user.email], [user.hashed_password]. *)
Record User : Type := {
  user_id_of : uuid;
  email : string;
  hashed_password : string
}.

(** What [UserRead.model_validate] keeps of a row: never the hash. *)
Record UserRead : Type := {
  ur_id : uuid;
  ur_email : string
}.

(** Modelled from the spec: [models/todo.py] is not among the sources.
    Section 3: "id, owning user id (foreign reference, not nullable),
    title/description fields, completion flag, timestamps". *)
Record Todo : Type := {
  todo_id_of : uuid;
  (** the owning user *)
  todo_user_id : uuid;
  title : string;
  description : option string;
  completed : bool;
  created_at : datetime;
  updated_at : datetime
}.

(** The store behind an [AsyncSession], as far as the code queries it. *)
Record AsyncSession : Type := {
  users : list User;
  todos : list Todo;
  (** [Some msg] when the store cannot be reached: every [execute] raises. *)
  fault : option string
}.

(** ** The password hasher (passlib's [CryptContext], one scheme)

    [pwd_context = CryptContext(schemes=["pbkdf2_sha256"], deprecated="auto")].
    The key-derivation function and the modular-crypt text format are the
    library's; they are the fields of [Pbkdf2].  What [CryptContext.verify]
    does around them is written out in [pwd_context_verify]. *)

Record Pbkdf2Hash : Type := {
  rounds : Z;
  salt : string;
  (** absent in a configuration string, which names no digest *)
  checksum : option string
}.

Class Pbkdf2 : Type := {
  (** [pbkdf2_sha256.from_string]: [None] stands for [MalformedHashError]. *)
  from_string : string → option Pbkdf2Hash;
  to_string : Pbkdf2Hash → string;
  (** [_calc_checksum]: PBKDF2-HMAC-SHA256 of the secret. *)
  calc_checksum : string → string → Z → string;
  default_rounds : Z;
  from_to_string : ∀ h, from_string (to_string h) = Some h;
  to_string_ident : ∀ h, String.prefix "$pbkdf2-sha256$" (to_string h) = true
}.

(** The library's default bound on the size of a secret. *)
Definition MAX_PASSWORD_SIZE : nat := 4096.

(** [validate_secret] *)
Definition validate_secret (secret : string) : result unit :=
  if (MAX_PASSWORD_SIZE <? String.length secret)%nat
  then Raise (Exception "PasswordSizeError" "password exceeds maximum allowed size")
  else Return ().

Section Passlib.
Context `{Pbkdf2}.

(** [pbkdf2_sha256.identify]: the scheme's identifying prefix. *)
Definition identify (hash : string) : bool :=
  String.prefix "$pbkdf2-sha256$" hash.

(** [CryptContext.verify(secret, hash)]: the hash is matched against the
    configured schemes, an unrecognised one raises [UnknownHashError]; the
    scheme then checks the secret's size, parses the hash, a parse failure
    or a missing digest raising; the checksum is recomputed and compared. *)
Definition pwd_context_verify (secret hash : string) : result bool :=
  if identify hash then
    _ ← validate_secret secret;
    match from_string hash with
    | None => Raise (Exception "MalformedHashError" "malformed pbkdf2_sha256 hash")
    | Some h =>
        match checksum h with
        | None => Raise (Exception "MissingDigestError" "expected pbkdf2_sha256 hash, got config string instead")
        | Some chk =>
            Return (String.eqb (calc_checksum secret (salt h) (rounds h)) chk)
        end
    end
  else Raise (Exception "UnknownHashError" "hash could not be identified").

(** The digest the scheme makes of a secret with a given salt. *)
Definition pbkdf2_digest (new_salt secret : string) : string :=
  to_string {| rounds := default_rounds; salt := new_salt;
               checksum := Some (calc_checksum secret new_salt default_rounds) |}.

(** [CryptContext.hash(secret)], the salt drawn by the library given. *)
Definition pwd_context_hash (new_salt secret : string) : result string :=
  _ ← validate_secret secret;
  Return (pbkdf2_digest new_salt secret).

(** security.py, [verify_password] *)
Definition verify_password (plain_password hashed_password : string) : result bool :=
  pwd_context_verify plain_password hashed_password.

(** security.py, [get_password_hash] *)
Definition get_password_hash (new_salt password : string) : result string :=
  pwd_context_hash new_salt password.

(** The digest is the one the scheme derives from this plaintext, with the
    salt and the round count the digest itself names. *)
Definition produced_from (plain digest : string) : Prop :=
  ∃ h, from_string digest = Some h ∧
       checksum h = Some (calc_checksum plain (salt h) (rounds h)).

(** A digest in the scheme's format. *)
Definition well_formed_digest (digest : string) : Prop :=
  identify digest = true ∧
  ∃ h chk, from_string digest = Some h ∧ checksum h = Some chk.

(** A plaintext within the library's size bound. *)
Definition secret_accepted (plain : string) : Prop :=
  (String.length plain ≤ MAX_PASSWORD_SIZE)%nat.

(** [session.execute(statement)] on the user table: the rows the [where]
    clause keeps, or the store's failure. *)
Definition execute_select_users (session : AsyncSession) (p : User → bool)
  : result (list User) :=
  match fault session with
  | Some msg => Raise (Exception "OperationalError" msg)
  | None => Return (filter (λ u, p u = true) (users session))
  end.

(** [result.scalars().first()] *)
Definition first {A} (rows : list A) : option A := head rows.

(** security.py, [authenticate_user] *)
Definition authenticate_user (session : AsyncSession) (email_ password : string)
  : result (option User) :=
  rows ← execute_select_users session (λ u, String.eqb (email u) email_);
  match first rows with
  | None => Return None
  | Some user =>
      ok ← verify_password password (hashed_password user);
      if negb ok then Return None else Return (Some user)
  end.

End Passlib.

(** ** Identifiers as text ([uuid.UUID(hex)] and [str(uuid)]) *)

Class UuidText : Type := {
  (** [UUID(s)]: [None] stands for [ValueError]. *)
  uuid_of_str : string → option uuid;
  str_of_uuid : uuid → string;
  uuid_of_str_of_uuid : ∀ u, uuid_of_str (str_of_uuid u) = Some u;
  uuid_of_str_empty : uuid_of_str "" = None
}.

(** ** The token codec (python-jose)

    A compact token is [b64(header) . b64(payload) . b64(signature)].  The
    text format and the MAC are the library's: [load] splits and decodes a
    token, [signing_input] and [compact] build one, [mac] signs with a
    symmetric algorithm, [supported] tells the algorithms the library has a
    key class for.  The checks [jwt.decode] makes on what [load] returns are
    written out below. *)

Record Jws : Type := {
  (** [header.get("alg")] *)
  jws_alg : value;
  jws_signing_input : string;
  jws_signature : string;
  (** the payload when it is a JSON object *)
  jws_payload : option (gmap string value)
}.

Definition is_datetime (v : value) : bool :=
  match v with VDatetime _ => true | _ => false end.

Definition is_str (v : value) : bool :=
  match v with VStr _ => true | _ => false end.

(** [json.dumps] accepts the payload: no [datetime] is left in it. *)
Definition json_serializable (claims : gmap string value) : bool :=
  forallb (λ kv, negb (is_datetime kv.2)) (map_to_list claims).

Class Jose : Type := {
  supported : string → bool;
  mac : string → string → string → string;
  signing_input : string → gmap string value → string;
  compact : string → string → string;
  load : string → option Jws;
  (** Python's [int(s)] on a string: [None] stands for [ValueError]. *)
  int_of_str : string → option Z;
  (** no algorithm goes by the empty name *)
  supported_empty : supported "" = false;
  (** a token built from a payload that serialises loads back *)
  load_compact : ∀ alg claims sg,
    json_serializable claims = true →
    load (compact (signing_input alg claims) sg)
    = Some {| jws_alg := VStr alg;
              jws_signing_input := signing_input alg claims;
              jws_signature := sg;
              jws_payload := Some claims |}
}.

Definition JWTError (msg : string) : exn := Exception "JWTError" msg.
Definition JWTClaimsError (msg : string) : exn := Exception "JWTClaimsError" msg.
Definition ExpiredSignatureError (msg : string) : exn :=
  Exception "ExpiredSignatureError" msg.

(** The loop of [jwt.encode] over one of ["exp"], ["iat"], ["nbf"]: a
    [datetime] entry is replaced by its whole seconds. *)
Definition convert_time_claim (time_claim : string) (claims : gmap string value)
  : gmap string value :=
  match claims !! time_claim with
  | Some (VDatetime t) => <[time_claim := VInt (timegm t)]> claims
  | _ => claims
  end.

Definition convert_time_claims (claims : gmap string value) : gmap string value :=
  convert_time_claim "nbf" (convert_time_claim "iat" (convert_time_claim "exp" claims)).

Section TokenCodec.
Context `{Jose}.

(** [int(x)] *)
Definition py_int (v : value) : result Z :=
  match v with
  | VInt z => Return z
  | VBool b => Return (if b then 1 else 0)
  | VStr s =>
      match int_of_str s with
      | Some z => Return z
      | None => Raise (Exception "ValueError" "invalid literal for int()")
      end
  | VNone | VDatetime _ =>
      Raise (Exception "TypeError" "int() argument must be a string or a number")
  end.

(** [jws.sign], on the claims already converted. *)
Definition jws_sign (claims : gmap string value) (key algorithm : string)
  : result string :=
  if supported algorithm then
    if json_serializable claims then
      let si := signing_input algorithm claims in
      Return (compact si (mac algorithm key si))
    else Raise (Exception "TypeError" "Object of type datetime is not JSON serializable")
  else Raise (Exception "JWSError" "Algorithm not supported.").

(** [jws.verify]: header, algorithm and signature checks. *)
Definition jws_verify (token key : string) (algorithms : list string)
  : result Jws :=
  match load token with
  | None => Raise (Exception "JWSError" "Not enough segments")
  | Some p =>
      if negb (truthy (jws_alg p)) then
        Raise (Exception "JWSError" "No algorithm was specified in the JWS header.")
      else
        match jws_alg p with
        | VStr alg =>
            if bool_decide (alg ∈ algorithms) then
              if supported alg then
                if String.eqb (mac alg key (jws_signing_input p)) (jws_signature p)
                then Return p
                else Raise (Exception "JWSError" "Signature verification failed.")
              else Raise (Exception "JWSError" "Invalid or unsupported algorithm")
            else Raise (Exception "JWSError" "The specified alg value is not allowed")
        | _ => Raise (Exception "JWSError" "The specified alg value is not allowed")
        end
  end.

(** The checks of [_validate_claims] with the default options and no
    audience, issuer, subject or access token given, in the library's
    order; [now] is the clock in whole seconds. *)
Definition validate_iat (claims : gmap string value) : result unit :=
  match claims !! "iat" with
  | None => Return ()
  | Some v => _ ← py_int v; Return ()
  end.

Definition validate_nbf (claims : gmap string value) (now : Z) : result unit :=
  match claims !! "nbf" with
  | None => Return ()
  | Some v =>
      nbf ← py_int v;
      if now <? nbf then Raise (JWTClaimsError "The token is not yet valid (nbf)")
      else Return ()
  end.

Definition validate_exp (claims : gmap string value) (now : Z) : result unit :=
  match claims !! "exp" with
  | None => Return ()
  | Some v =>
      exp ← py_int v;
      if exp <? now then Raise (ExpiredSignatureError "Signature has expired.")
      else Return ()
  end.

Definition validate_aud (claims : gmap string value) : result unit :=
  match claims !! "aud" with
  | None => Return ()
  | Some _ => Raise (JWTClaimsError "Invalid audience")
  end.

Definition validate_sub (claims : gmap string value) : result unit :=
  match claims !! "sub" with
  | None => Return ()
  | Some v =>
      if is_str v then Return ()
      else Raise (JWTClaimsError "Subject must be a string.")
  end.

Definition validate_jti (claims : gmap string value) : result unit :=
  match claims !! "jti" with
  | None => Return ()
  | Some v =>
      if is_str v then Return ()
      else Raise (JWTClaimsError "JWT ID must be a string.")
  end.

Definition validate_at_hash (claims : gmap string value) : result unit :=
  match claims !! "at_hash" with
  | None => Return ()
  | Some _ =>
      Raise (JWTClaimsError "No access_token provided to compare against at_hash claim.")
  end.

Definition validate_claims (claims : gmap string value) (now : Z) : result unit :=
  _ ← validate_iat claims;
  _ ← validate_nbf claims now;
  _ ← validate_exp claims now;
  _ ← validate_aud claims;
  _ ← validate_sub claims;
  _ ← validate_jti claims;
  validate_at_hash claims.

(** [jwt.decode(token, key, algorithms=...)] read at clock [now]. *)
Definition jwt_decode (token key : string) (algorithms : list string)
  (now : datetime) : result (gmap string value) :=
  match jws_verify token key algorithms with
  | Raise e => Raise (JWTError (exn_str e))
  | Return p =>
      match jws_payload p with
      | None => Raise (JWTError "Invalid payload string: must be a json object")
      | Some claims =>
          _ ← validate_claims claims (timegm now); Return claims
      end
  end.

End TokenCodec.

(** ** core/security.py: tokens *)

Record TokenData : Type := {
  username : string;
  user_id : uuid
}.

Record Request : Type := {
  cookies : gmap string string
}.

(** [try: body  except Exception: handler] *)
Definition try_except {A} (body : result A) (handler : exn → result A) : result A :=
  match body with
  | Return a => Return a
  | Raise e => handler e
  end.

(** The classes an [except (ValueError, TypeError)] clause catches, pydantic's
    [ValidationError] being a [ValueError]. *)
Definition is_ValueError_or_TypeError (e : exn) : bool :=
  match e with
  | Exception cls _ =>
      bool_decide (cls ∈ ["ValueError"; "TypeError"; "ValidationError"])
  | HTTPException _ _ _ => false
  end.

(** Truth value of an [Optional[timedelta]]: [None] and the zero duration
    are both false. *)
Definition timedelta_truthy (d : option timedelta) : bool :=
  match d with
  | None => false
  | Some d => negb (Z.eqb d 0)
  end.

Definition credentials_exception : exn :=
  HTTPException 401 "Could not validate credentials" [("WWW-Authenticate", "Bearer")].

Section Security.
Context `{Pbkdf2, Jose, UuidText}.
Variable settings : Settings.

Definition SECRET_KEY : string := better_auth_secret settings.
Definition ALGORITHM : string := jwt_algorithm settings.
Definition ACCESS_TOKEN_EXPIRE_DAYS : Z := jwt_expiry_days settings.

(** [jwt.encode(claims, key, algorithm=...)].  The library converts the
    time claims in the dictionary it is handed, in place, and signs the
    result. *)
Definition jwt_encode (h : gmap nat (gmap string value)) (claims : nat)
  (key algorithm : string) : gmap nat (gmap string value) * result string :=
  let converted := convert_time_claims (h !!! claims) in
  (<[claims := converted]> h, jws_sign converted key algorithm).

(** security.py, [create_access_token].  [h] is the store of dictionaries,
    [data] the caller's dictionary in it; the store after the call is
    returned with the token. *)
Definition create_access_token (h : gmap nat (gmap string value)) (data : nat)
  (expires_delta : option timedelta) (now : datetime)
  : gmap nat (gmap string value) * result string :=
  (* to_encode = data.copy() *)
  let to_encode := fresh (dom h) in
  let h1 := <[to_encode := h !!! data]> h in
  let expire :=
    if timedelta_truthy expires_delta
    then now + default 0 expires_delta
    else now + timedelta_days ACCESS_TOKEN_EXPIRE_DAYS in
  (* to_encode.update({"exp": expire}) *)
  let h2 := <[to_encode := <["exp" := VDatetime expire]> (h1 !!! to_encode)]> h1 in
  jwt_encode h2 to_encode SECRET_KEY ALGORITHM.

(** [UUID(user_id)] on a payload entry. *)
Definition py_UUID (v : value) : result uuid :=
  match v with
  | VStr s =>
      match uuid_of_str s with
      | Some u => Return u
      | None => Raise (Exception "ValueError" "badly formed hexadecimal UUID string")
      end
  | _ => Raise (Exception "AttributeError" "object has no attribute 'replace'")
  end.

(** [TokenData(username=..., user_id=...)], with the model's validation of
    the [username] field. *)
Definition TokenData_new (username_ : value) (user_id_ : uuid) : result TokenData :=
  match username_ with
  | VStr s => Return {| username := s; user_id := user_id_ |}
  | _ => Raise (Exception "ValidationError" "username: Input should be a valid string")
  end.

(** security.py, [verify_token] *)
Definition verify_token (now : datetime) (token : string) : option TokenData :=
  let body : result (option TokenData) :=
    payload ← jwt_decode token SECRET_KEY [ALGORITHM] now;
    let username_ := dict_get payload "sub" in
    let user_id_ := dict_get payload "user_id" in
    if negb (truthy username_) || negb (truthy user_id_) then Return None
    else
      try_except
        (u ← py_UUID user_id_; td ← TokenData_new username_ u; Return (Some td))
        (λ e, if is_ValueError_or_TypeError e then Return None else Raise e) in
  match body with
  | Return r => r
  | Raise _ => None
  end.

(** ** core/security.py: cookie-based dependencies *)

(** [UserRead.model_validate(user)] *)
Definition UserRead_model_validate (u : User) : UserRead :=
  {| ur_id := user_id_of u; ur_email := email u |}.

(** security.py, [get_current_user_from_cookie] *)
Definition get_current_user_from_cookie (request : Request)
  (session : AsyncSession) (now : datetime) : result UserRead :=
  try_except
    (match cookies request !! "access_token" with
     | None => Raise credentials_exception
     | Some token =>
         if String.eqb token "" then Raise credentials_exception
         else
           match verify_token now token with
           | None => Raise credentials_exception
           | Some token_data =>
               rows ← execute_select_users session
                        (λ u, bool_decide (user_id_of u = user_id token_data));
               match first rows with
               | None => Raise credentials_exception
               | Some user => Return (UserRead_model_validate user)
               end
           end
     end)
    (λ _, Raise credentials_exception).

(** security.py, [get_current_active_user] *)
Definition get_current_active_user (current_user : result UserRead)
  : result UserRead := current_user.

(** security.py, [get_user_id_from_cookie] *)
Definition get_user_id_from_cookie (request : Request) (now : datetime)
  : result uuid :=
  match cookies request !! "access_token" with
  | None => Raise credentials_exception
  | Some token =>
      if String.eqb token "" then Raise credentials_exception
      else
        match verify_token now token with
        | None => Raise credentials_exception
        | Some token_data => Return (user_id token_data)
        end
  end.

End Security.

(** ** api/auth.py *)

Record LoginRequest : Type := {
  lr_email : string;
  lr_password : string
}.

(** The arguments of [response.set_cookie]. *)
Record Cookie : Type := {
  ck_key : string;
  ck_value : string;
  ck_httponly : bool;
  ck_secure : bool;
  ck_samesite : string;
  ck_max_age : Z;
  ck_path : string
}.

Record LoginResponse : Type := {
  set_cookie : Cookie;
  message : string;
  body_user_id : string;
  access_token : string
}.

Section Auth.
Context `{Pbkdf2, Jose, UuidText}.
Variable settings : Settings.

(** auth.py, [register_user], over the outcome of
    [UserService.create_user]. *)
Definition register_user (created : result UserRead) : result UserRead :=
  try_except created
    (λ e, match e with
          | HTTPException _ _ _ => Raise e
          | Exception _ _ =>
              Raise (HTTPException 500 "An error occurred during user registration" [])
          end).

(** auth.py, [login_user] *)
Definition login_user (login_request : LoginRequest) (session : AsyncSession)
  (now : datetime) : result LoginResponse :=
  try_except
    (user ← authenticate_user session (lr_email login_request)
              (lr_password login_request);
     match user with
     | None =>
         Raise (HTTPException 401 "Incorrect email or password"
                  [("WWW-Authenticate", "Bearer")])
     | Some user =>
         let access_token_expires :=
           timedelta_days (ACCESS_TOKEN_EXPIRE_DAYS settings) in
         let data : gmap string value :=
           {[ "sub" := VStr (email user);
              "user_id" := VStr (str_of_uuid (user_id_of user)) ]} in
         token ← (create_access_token settings {[ 0%nat := data ]} 0%nat
                    (Some access_token_expires) now).2;
         Return {| set_cookie :=
                     {| ck_key := "access_token";
                        ck_value := token;
                        ck_httponly := true;
                        ck_secure := true;
                        ck_samesite := "none";
                        ck_max_age := ACCESS_TOKEN_EXPIRE_DAYS settings * 24 * 60 * 60;
                        ck_path := "/" |};
                   message := "Login successful";
                   body_user_id := str_of_uuid (user_id_of user);
                   access_token := token |}
     end)
    (λ e, match e with
          | HTTPException _ _ _ => Raise e
          | Exception _ _ =>
              let error_detail := "Internal Server Error: " +:+ exn_str e in
              Raise (HTTPException 500 error_detail [])
          end).

(** auth.py, [read_users_me] *)
Definition read_users_me (current_user : result UserRead) : result UserRead :=
  current_user.

End Auth.

(** ** The request bodies of the todo routes ([models/todo.py]) and
    [services/todo_service.py] *)

(** Modelled from the spec: [models/todo.py] is not among the sources.  The
    body of a create request, "todo fields excluding owner" (section 6),
    together with the owner field a client might supply all the same
    (section 4.5). *)
Record TodoCreate : Type := {
  tc_title : string;
  tc_description : option string;
  tc_completed : bool;
  (** an owner a client may have put in the request body *)
  tc_user_id : option uuid
}.

(** Modelled from the spec: the body of a full update, the todo's fields. *)
Record TodoUpdate : Type := {
  tu_title : string;
  tu_description : option string;
  tu_completed : bool
}.

(** Modelled from the spec: the body of a partial update, every field
    optional. *)
Record TodoPatch : Type := {
  tp_title : option string;
  tp_description : option (option string);
  tp_completed : option bool
}.

Module TodoService.

(** Modelled from the spec: [services/todo_service.py] is not among the
    sources.  The failure of section 4.5, "a uniform not-found failure",
    surfaced as 404 (section 6). *)
Definition not_found : exn := HTTPException 404 "Todo not found" [].

(** Modelled from the spec: the filter [id AND owner == caller_id] of
    section 4.5, the service's query being absent from the sources. *)
Definition owned_by (todo_id user_id_ : uuid) (t : Todo) : bool :=
  bool_decide (todo_id_of t = todo_id) && bool_decide (todo_user_id t = user_id_).

(** Modelled from the spec: the store of section 2 is reached by queries
    that fail when it is unreachable (section 7 (d)); the service's calls
    are absent from the sources. *)
Definition store_fault (session : AsyncSession) : result unit :=
  match fault session with
  | Some msg => Raise (Exception "OperationalError" msg)
  | None => Return ()
  end.

(** Modelled from the spec: the single ownership-filtered lookup of section
    4.5, shared by every operation on one row; no matching row, absent or
    owned by someone else, is the uniform not-found failure. *)
Definition fetch (session : AsyncSession) (todo_id user_id_ : uuid) : result Todo :=
  _ ← store_fault session;
  match find (owned_by todo_id user_id_) (todos session) with
  | Some t => Return t
  | None => Raise not_found
  end.

(** Modelled from the spec: the todo table after a write, the other tables
    untouched. *)
Definition with_todos (session : AsyncSession) (ts : list Todo) : AsyncSession :=
  {| users := users session; todos := ts; fault := fault session |}.

(** Modelled from the spec: one update statement scoped by id and owner
    (section 5). *)
Definition update_rows (todo_id user_id_ : uuid) (f : Todo → Todo)
  (ts : list Todo) : list Todo :=
  map (λ t, if owned_by todo_id user_id_ t then f t else t) ts.

(** Modelled from the spec: [create] of section 4.5, which stamps the new
    record's owner with the caller's id regardless of any owner field the
    client might supply; [new_id] is the id drawn for the row. *)
Definition create_todo (session : AsyncSession) (todo_create : TodoCreate)
  (user_id_ new_id : uuid) (now : datetime) : result (Todo * AsyncSession) :=
  _ ← store_fault session;
  let t := {| todo_id_of := new_id;
              todo_user_id := user_id_;
              title := tc_title todo_create;
              description := tc_description todo_create;
              completed := tc_completed todo_create;
              created_at := now;
              updated_at := now |} in
  Return (t, with_todos session (todos session ++ [t])).

(** Modelled from the spec: [get_by_id] of section 4.5. *)
Definition get_todo_by_id (session : AsyncSession) (todo_id user_id_ : uuid)
  : result Todo :=
  fetch session todo_id user_id_.

(** Modelled from the spec: [list_for_owner] of section 4.5, which "never
    returns another user's records" (section 8) and pages the caller's rows
    "via an offset and a bounded page size".  The spec gives the bound no
    number: it is the parameter [max_page_size], and a larger [limit] is cut
    down to it. *)
Definition get_todos_by_user (max_page_size : Z) (session : AsyncSession)
  (user_id_ : uuid) (skip limit : Z) : result (list Todo) :=
  _ ← store_fault session;
  Return (take (Z.to_nat (Z.min limit max_page_size))
            (drop (Z.to_nat skip)
               (filter (λ t, todo_user_id t = user_id_) (todos session)))).

(** Modelled from the spec: the full update of a row's fields; id and
    owner are immutable after creation (section 3). *)
Definition apply_update (todo_update : TodoUpdate) (now : datetime) (t : Todo) : Todo :=
  {| todo_id_of := todo_id_of t;
     todo_user_id := todo_user_id t;
     title := tu_title todo_update;
     description := tu_description todo_update;
     completed := tu_completed todo_update;
     created_at := created_at t;
     updated_at := now |}.

(** Modelled from the spec: the partial update, an omitted field kept. *)
Definition apply_patch (todo_patch : TodoPatch) (now : datetime) (t : Todo) : Todo :=
  {| todo_id_of := todo_id_of t;
     todo_user_id := todo_user_id t;
     title := default (title t) (tp_title todo_patch);
     description := default (description t) (tp_description todo_patch);
     completed := default (completed t) (tp_completed todo_patch);
     created_at := created_at t;
     updated_at := now |}.

(** Modelled from the spec: [toggle_completion] of section 4.5, the
    completion flag flipped. *)
Definition apply_toggle (now : datetime) (t : Todo) : Todo :=
  {| todo_id_of := todo_id_of t;
     todo_user_id := todo_user_id t;
     title := title t;
     description := description t;
     completed := negb (completed t);
     created_at := created_at t;
     updated_at := now |}.

(** Modelled from the spec: the ownership-filtered fetch of section 4.5,
    then the write of the changed row. *)
Definition modify (session : AsyncSession) (todo_id user_id_ : uuid)
  (f : Todo → Todo) : result (Todo * AsyncSession) :=
  t ← fetch session todo_id user_id_;
  Return (f t, with_todos session (update_rows todo_id user_id_ f (todos session))).

(** Modelled from the spec: [update] of section 4.5. *)
Definition update_todo (session : AsyncSession) (todo_id : uuid)
  (todo_update : TodoUpdate) (user_id_ : uuid) (now : datetime)
  : result (Todo * AsyncSession) :=
  modify session todo_id user_id_ (apply_update todo_update now).

(** Modelled from the spec: [partial_update] of section 4.5. *)
Definition patch_todo (session : AsyncSession) (todo_id : uuid)
  (todo_patch : TodoPatch) (user_id_ : uuid) (now : datetime)
  : result (Todo * AsyncSession) :=
  modify session todo_id user_id_ (apply_patch todo_patch now).

(** Modelled from the spec: [delete] of section 4.5. *)
Definition delete_todo (session : AsyncSession) (todo_id user_id_ : uuid)
  : result (unit * AsyncSession) :=
  _ ← fetch session todo_id user_id_;
  Return ((), with_todos session
                (filter (λ t, owned_by todo_id user_id_ t = false) (todos session))).

(** Modelled from the spec: [toggle_completion] of section 4.5. *)
Definition toggle_todo_completion (session : AsyncSession) (todo_id user_id_ : uuid)
  (now : datetime) : result (Todo * AsyncSession) :=
  modify session todo_id user_id_ (apply_toggle now).

End TodoService.

(** ** api/todos.py *)

Section Todos.
Context `{Jose, UuidText}.
Variable settings : Settings.
(** The bound the todo service puts on a page; see
    [TodoService.get_todos_by_user]. *)
Variable max_page_size : Z.

(** The declared defaults of the query parameters of [get_todos]. *)
Definition default_skip : Z := 0.
Definition default_limit : Z := 100.

(** todos.py, [create_todo] *)
Definition create_todo (request : Request) (session : AsyncSession)
  (todo_create : TodoCreate) (new_id : uuid) (now : datetime)
  : result (Todo * AsyncSession) :=
  user_id_ ← get_user_id_from_cookie settings request now;
  TodoService.create_todo session todo_create user_id_ new_id now.

(** todos.py, [get_todo] *)
Definition get_todo (todo_id : uuid) (request : Request) (session : AsyncSession)
  (now : datetime) : result Todo :=
  user_id_ ← get_user_id_from_cookie settings request now;
  TodoService.get_todo_by_id session todo_id user_id_.

(** todos.py, [get_todos]; an omitted query parameter is [None]. *)
Definition get_todos (request : Request) (session : AsyncSession)
  (skip limit : option Z) (now : datetime) : result (list Todo) :=
  let skip := default default_skip skip in
  let limit := default default_limit limit in
  user_id_ ← get_user_id_from_cookie settings request now;
  TodoService.get_todos_by_user max_page_size session user_id_ skip limit.

(** todos.py, [update_todo] *)
Definition update_todo (todo_id : uuid) (todo_update : TodoUpdate)
  (request : Request) (session : AsyncSession) (now : datetime)
  : result (Todo * AsyncSession) :=
  user_id_ ← get_user_id_from_cookie settings request now;
  TodoService.update_todo session todo_id todo_update user_id_ now.

(** todos.py, [patch_todo] *)
Definition patch_todo (todo_id : uuid) (todo_patch : TodoPatch)
  (request : Request) (session : AsyncSession) (now : datetime)
  : result (Todo * AsyncSession) :=
  user_id_ ← get_user_id_from_cookie settings request now;
  TodoService.patch_todo session todo_id todo_patch user_id_ now.

(** todos.py, [delete_todo] *)
Definition delete_todo (todo_id : uuid) (request : Request)
  (session : AsyncSession) (now : datetime) : result (unit * AsyncSession) :=
  user_id_ ← get_user_id_from_cookie settings request now;
  TodoService.delete_todo session todo_id user_id_.

(** todos.py, [toggle_todo_completion] *)
Definition toggle_todo_completion (todo_id : uuid) (request : Request)
  (session : AsyncSession) (now : datetime) : result (Todo * AsyncSession) :=
  user_id_ ← get_user_id_from_cookie settings request now;
  TodoService.toggle_todo_completion session todo_id user_id_ now.

End Todos.

(** ** A reference instance of the library interfaces

    Transparent stand-ins for the libraries' text formats and primitives:
    they satisfy the laws of [Pbkdf2], [Jose] and [UuidText] and compute, so
    that the functions above can be run on concrete requests.  Nothing below
    is secure, nor is it meant to be. *)

Module Reference.

Fixpoint pos_to_bits (p : positive) : string :=
  match p with
  | xH => ""
  | xO p => String "0"%char (pos_to_bits p)
  | xI p => String "1"%char (pos_to_bits p)
  end.

Fixpoint bits_to_pos (s : string) : option positive :=
  match s with
  | EmptyString => Some xH
  | String c s =>
      if Ascii.eqb c "0"%char then xO <$> bits_to_pos s
      else if Ascii.eqb c "1"%char then xI <$> bits_to_pos s
      else None
  end.

(** Any countable datum as text, and back. *)
Definition to_text `{Countable A} (a : A) : string := pos_to_bits (encode a).
Definition of_text `{Countable A} (s : string) : option A :=
  bits_to_pos s ≫= decode.

Lemma bits_to_pos_to_bits p : bits_to_pos (pos_to_bits p) = Some p.
Proof. induction p as [p IH|p IH|]; simpl; by rewrite ?IH. Qed.

Lemma of_text_to_text `{Countable A} (a : A) : of_text (to_text a) = Some a.
Proof.
  unfold of_text, to_text. rewrite bits_to_pos_to_bits. simpl.
  apply decode_encode.
Qed.

#[local] Instance value_countable : Countable value.
Proof.
  refine (inj_countable'
    (λ v, match v with
          | VNone => inl ()
          | VBool b => inr (inl b)
          | VInt z => inr (inr (inl z))
          | VStr s => inr (inr (inr (inl s)))
          | VDatetime t => inr (inr (inr (inr t)))
          end)
    (λ x, match x with
          | inl () => VNone
          | inr (inl b) => VBool b
          | inr (inr (inl z)) => VInt z
          | inr (inr (inr (inl s))) => VStr s
          | inr (inr (inr (inr t))) => VDatetime t
          end) _).
  by intros [].
Defined.

(** *** Hasher *)

Definition ident : string := "$pbkdf2-sha256$".

Fixpoint strip_prefix (p s : string) : option string :=
  match p, s with
  | EmptyString, _ => Some s
  | String a p, String b s => if Ascii.eqb a b then strip_prefix p s else None
  | String _ _, EmptyString => None
  end.

Definition ref_to_string (h : Pbkdf2Hash) : string :=
  ident +:+ to_text (rounds h, salt h, checksum h).

Definition ref_from_string (s : string) : option Pbkdf2Hash :=
  rest ← strip_prefix ident s;
  '(r, sa, ch) ← of_text (A := Z * string * option string) rest;
  Some {| rounds := r; salt := sa; checksum := ch |}.

Definition ref_calc_checksum (secret salt_ : string) (rounds_ : Z) : string :=
  to_text rounds_ +:+ "$" +:+ salt_ +:+ "$" +:+ secret.

Lemma ref_from_to_string h : ref_from_string (ref_to_string h) = Some h.
Proof.
  unfold ref_from_string, ref_to_string.
  change (strip_prefix ident (ident +:+ ?x)) with (Some x). simpl.
  rewrite of_text_to_text. by destruct h.
Qed.

Lemma ref_to_string_ident h : String.prefix "$pbkdf2-sha256$" (ref_to_string h) = true.
Proof. unfold ref_to_string, ident. simpl. by destruct (to_text _). Qed.

Definition pbkdf2 : Pbkdf2 := {|
  from_string := ref_from_string;
  to_string := ref_to_string;
  calc_checksum := ref_calc_checksum;
  default_rounds := 29000;
  from_to_string := ref_from_to_string;
  to_string_ident := ref_to_string_ident
|}.

(** *** Token codec *)

Definition ref_supported (alg : string) : bool :=
  bool_decide (alg ∈ ["HS256"; "HS384"; "HS512"]).

Definition ref_mac (alg key msg : string) : string :=
  alg +:+ "/" +:+ key +:+ "/" +:+ msg.

(** A text framed by its length in unary, so that what follows it can be
    told apart. *)
Fixpoint ones (n : nat) (rest : string) : string :=
  match n with
  | O => rest
  | S n => String "1"%char (ones n rest)
  end.

Definition frame (s rest : string) : string :=
  ones (String.length s) (String "0"%char (s +:+ rest)).

Fixpoint take_ones (s : string) : nat * string :=
  match s with
  | String c r =>
      if Ascii.eqb c "1"%char
      then let '(n, r') := take_ones r in (S n, r')
      else (O, s)
  | EmptyString => (O, s)
  end.

Fixpoint split_at (n : nat) (s : string) : option (string * string) :=
  match n with
  | O => Some ("", s)
  | S n =>
      match s with
      | String c r => '(a, b) ← split_at n r; Some (String c a, b)
      | EmptyString => None
      end
  end.

Definition unframe (s : string) : option (string * string) :=
  let '(n, r) := take_ones s in
  match r with
  | String c r' => if Ascii.eqb c "0"%char then split_at n r' else None
  | EmptyString => None
  end.

Lemma take_ones_ones n x : take_ones (ones n (String "0"%char x)) = (n, String "0"%char x).
Proof. induction n as [|n IH]; simpl; [done|]. by rewrite IH. Qed.

Lemma split_at_app a rest : split_at (String.length a) (a +:+ rest) = Some (a, rest).
Proof. induction a as [|c a IH]; simpl; [done|]. by rewrite IH. Qed.

Lemma unframe_frame s rest : unframe (frame s rest) = Some (s, rest).
Proof.
  unfold unframe, frame. rewrite take_ones_ones. simpl. apply split_at_app.
Qed.

Definition ref_signing_input (alg : string) (claims : gmap string value) : string :=
  to_text (alg, claims).

Definition ref_compact (si sg : string) : string := frame si sg.

Definition ref_load (token : string) : option Jws :=
  '(si, sg) ← unframe token;
  '(alg, claims) ← of_text (A := string * gmap string value) si;
  Some {| jws_alg := VStr alg; jws_signing_input := si;
          jws_signature := sg; jws_payload := Some claims |}.

Fixpoint digits (s : string) (acc : Z) : option Z :=
  match s with
  | EmptyString => Some acc
  | String c s =>
      let d := Z.of_nat (nat_of_ascii c) - 48 in
      if (0 <=? d) && (d <=? 9) then digits s (10 * acc + d) else None
  end.

(** Unsigned decimal literals only. *)
Definition ref_int_of_str (s : string) : option Z :=
  match s with
  | EmptyString => None
  | _ => digits s 0
  end.

Lemma ref_load_compact alg claims sg :
  ref_load (ref_compact (ref_signing_input alg claims) sg)
  = Some {| jws_alg := VStr alg;
            jws_signing_input := ref_signing_input alg claims;
            jws_signature := sg;
            jws_payload := Some claims |}.
Proof.
  unfold ref_load, ref_compact. rewrite unframe_frame. simpl.
  unfold ref_signing_input. by rewrite of_text_to_text.
Qed.

Definition jose : Jose := {|
  supported := ref_supported;
  mac := ref_mac;
  signing_input := ref_signing_input;
  compact := ref_compact;
  load := ref_load;
  int_of_str := ref_int_of_str;
  supported_empty := eq_refl;
  load_compact := λ alg claims sg _, ref_load_compact alg claims sg
|}.

(** *** Identifiers as text *)

Definition ref_str_of_uuid (u : uuid) : string := String "u"%char (to_text u).

Definition ref_uuid_of_str (s : string) : option uuid :=
  match s with
  | String c rest => if Ascii.eqb c "u"%char then of_text rest else None
  | EmptyString => None
  end.

Lemma ref_uuid_of_str_of_uuid u : ref_uuid_of_str (ref_str_of_uuid u) = Some u.
Proof. unfold ref_uuid_of_str, ref_str_of_uuid. simpl. apply of_text_to_text. Qed.

Definition uuid_text : UuidText := {|
  uuid_of_str := ref_uuid_of_str;
  str_of_uuid := ref_str_of_uuid;
  uuid_of_str_of_uuid := ref_uuid_of_str_of_uuid;
  uuid_of_str_empty := eq_refl
|}.

Definition settings : Settings :=
  {| better_auth_secret := "correct horse battery staple";
     jwt_algorithm := default_jwt_algorithm;
     jwt_expiry_days := default_jwt_expiry_days |}.

End Reference.

(** ** core/config.py: the allowed origins *)

(** The field [backend_cors_origins : Union[List[str], str]]. *)
Inductive CorsSetting : Type :=
| CorsList (origins : list string)
| CorsStr (text : string).

(** What [cors_origins] returns: a list of texts, or whatever [json.loads]
    made of a bracketed text. *)
Inductive CorsOrigins (J : Type) : Type :=
| Origins (origins : list string)
| Loaded (parsed : J).
Arguments Origins {J} origins.
Arguments Loaded {J} parsed.

Definition default_cors_origins : list string :=
  ["http://localhost:3000"; "http://localhost:8000"].

(** [c in s] for a character. *)
Fixpoint contains (c : ascii) (s : string) : bool :=
  match s with
  | EmptyString => false
  | String a r => Ascii.eqb a c || contains c r
  end.

(** [s.split(",")] *)
Fixpoint split_comma (s : string) : list string :=
  match s with
  | EmptyString => [EmptyString]
  | String c r =>
      if Ascii.eqb c ","%char then EmptyString :: split_comma r
      else match split_comma r with
           | piece :: pieces => String c piece :: pieces
           | [] => [String c EmptyString]
           end
  end.

(** [",".join(l)] *)
Fixpoint join_comma (l : list string) : string :=
  match l with
  | [] => EmptyString
  | [x] => x
  | x :: rest => x +:+ String ","%char (join_comma rest)
  end.

(** [s.endswith("]")] *)
Fixpoint ends_with_bracket (s : string) : bool :=
  match s with
  | EmptyString => false
  | String c EmptyString => Ascii.eqb c "]"%char
  | String _ r => ends_with_bracket r
  end.

Section Cors.
(** The characters [str.strip()] takes for whitespace, and [json.loads],
    [None] standing for the exception it raises. *)
Variable isspace : ascii → bool.
Variable J : Type.
Variable json_loads : string → option J.

(** [s.lstrip()] *)
Fixpoint lstrip (s : string) : string :=
  match s with
  | EmptyString => EmptyString
  | String c r => if isspace c then lstrip r else s
  end.

(** [s.rstrip()] *)
Fixpoint rstrip (s : string) : string :=
  match s with
  | EmptyString => EmptyString
  | String c r =>
      match rstrip r with
      | EmptyString => if isspace c then EmptyString else String c EmptyString
      | r' => String c r'
      end
  end.

(** [s.strip()] *)
Definition strip (s : string) : string := rstrip (lstrip s).

(** [[origin.strip() for origin in val.split(",") if origin.strip()]] *)
Definition split_origins (val : string) : list string :=
  omap (λ origin,
          if String.eqb (strip origin) "" then None else Some (strip origin))
       (split_comma val).

(** config.py, [Settings.cors_origins] *)
Definition cors_origins (backend_cors_origins : CorsSetting) : CorsOrigins J :=
  match backend_cors_origins with
  | CorsList [] | CorsStr EmptyString => Origins default_cors_origins
  | CorsStr text =>
      let val := strip text in
      if String.prefix "[" val && ends_with_bracket val then
        match json_loads val with
        | Some parsed => Loaded parsed
        | None => Origins (split_origins val)
        end
      else Origins (split_origins val)
  | CorsList origins => Origins origins
  end.

(** An origin as a user would write one: not empty, no whitespace around
    it, no comma in it. *)
Definition clean_origin (o : string) : Prop :=
  o ≠ "" ∧ lstrip o = o ∧ rstrip o = o ∧ contains ","%char o = false.

(** The text is not a bracketed one that [json.loads] reads. *)
Definition split_as_text (val : string) : Prop :=
  String.prefix "[" val && ends_with_bracket val = false ∨ json_loads val = None.

End Cors.

(** Python's whitespace among the ASCII characters. *)
Definition ascii_isspace (c : ascii) : bool :=
  let n := nat_of_ascii c in
  ((9 <=? n) && (n <=? 13) || (28 <=? n) && (n <=? 32))%nat.

(** * The vocabulary of the statements *)

(** The payload carries, besides its private entries and possibly an
    expiry, none of the registered claims the library checks, and no
    [datetime] outside ["exp"]. *)
Definition private_claims_only (d : gmap string value) : Prop :=
  d !! "iat" = None ∧ d !! "nbf" = None ∧ d !! "aud" = None ∧
  d !! "jti" = None ∧ d !! "at_hash" = None ∧
  ∀ k t, d !! k = Some (VDatetime t) → k = "exp".

(** The expiry [create_access_token] computes. *)
Definition expiry (settings : Settings) (expires_delta : option timedelta)
  (now : datetime) : datetime :=
  if timedelta_truthy expires_delta
  then now + default 0 expires_delta
  else now + timedelta_days (jwt_expiry_days settings).

(** The time-to-live the caller asks for: the given duration, and the
    configured number of days when none is given. *)
Definition time_to_live (settings : Settings) (expires_delta : option timedelta)
  : timedelta :=
  default (timedelta_days (jwt_expiry_days settings)) expires_delta.

(** The range of Python's [datetime], from [datetime.min] (year 1) to
    [datetime.max] (the last microsecond of year 9999), in microseconds from
    the epoch.  Outside of it [utcnow() + expires_delta] raises
    [OverflowError]. *)
Definition datetime_min : datetime := -62135596800 * second.
Definition datetime_max : datetime := 253402300799 * second + 999999 * microsecond.

Definition in_datetime_range (t : datetime) : Prop :=
  datetime_min ≤ t ≤ datetime_max.

(** The dictionary [create_access_token] hands to the signer. *)
Definition claims_to_sign (settings : Settings) (d : gmap string value)
  (expires_delta : option timedelta) (now : datetime) : gmap string value :=
  convert_time_claims (<["exp" := VDatetime (expiry settings expires_delta now)]> d).

(** The conditions [_validate_claims] puts on a payload, at clock [now] in
    whole seconds. *)
Section ClaimConditions.
Context `{Jose}.

(** The expiry, when the payload has one, is not earlier than the clock. *)
Definition not_expired (claims : gmap string value) (now : Z) : Prop :=
  match claims !! "exp" with
  | None => True
  | Some v => ∃ exp, py_int v = Return exp ∧ now ≤ exp
  end.

Definition iat_ok (claims : gmap string value) : Prop :=
  match claims !! "iat" with
  | None => True
  | Some v => ∃ iat, py_int v = Return iat
  end.

Definition nbf_ok (claims : gmap string value) (now : Z) : Prop :=
  match claims !! "nbf" with
  | None => True
  | Some v => ∃ nbf, py_int v = Return nbf ∧ nbf ≤ now
  end.

Definition text_or_absent (claims : gmap string value) (k : string) : Prop :=
  match claims !! k with
  | None => True
  | Some v => is_str v = true
  end.

(** The other registered claims pass: a numeric [iat], an [nbf] not in the
    future, no [aud], text for [sub] and [jti], no [at_hash]. *)
Definition registered_claims_ok (claims : gmap string value) (now : Z) : Prop :=
  iat_ok claims ∧ nbf_ok claims now ∧ claims !! "aud" = None ∧
  text_or_absent claims "sub" ∧ text_or_absent claims "jti" ∧
  claims !! "at_hash" = None.

End ClaimConditions.

Section TokenValidity.
Context `{Jose, UuidText}.
Variable settings : Settings.

(** The token a signer holding the server's key and algorithm makes of a
    payload. *)
Definition signed_token (claims : gmap string value) : string :=
  compact (signing_input (ALGORITHM settings) claims)
    (mac (ALGORITHM settings) (SECRET_KEY settings)
       (signing_input (ALGORITHM settings) claims)).

(** What [verify_token] accepts: the signature verifies under the server's
    key and algorithm, the payload is an object that passes the library's
    checks of the registered claims, its subject is a non-empty text and
    its user id parses as an identifier. *)
Definition valid_token (now : datetime) (token : string) (td : TokenData) : Prop :=
  ∃ p claims us,
    jws_verify token (SECRET_KEY settings) [ALGORITHM settings] = Return p ∧
    jws_payload p = Some claims ∧
    not_expired claims (timegm now) ∧
    registered_claims_ok claims (timegm now) ∧
    claims !! "sub" = Some (VStr (username td)) ∧ username td ≠ "" ∧
    claims !! "user_id" = Some (VStr us) ∧ uuid_of_str us = Some (user_id td).

(** The payload part of [verify_token], after decoding. *)
Definition token_data_of (payload : gmap string value) : option TokenData :=
  match payload !! "sub", payload !! "user_id" with
  | Some (VStr s), Some (VStr us) =>
      if String.eqb s "" then None
      else u ← uuid_of_str us; Some {| username := s; user_id := u |}
  | _, _ => None
  end.

(** The validity of a token as the specification words it, read literally:
    the signature verifies against the server secret, the current time is
    before the expiry the token carries, the subject is present and
    non-empty, and the user id parses. *)
Definition valid_as_claimed (now : datetime) (token : string) (td : TokenData) : Prop :=
  ∃ p claims exp us,
    jws_verify token (SECRET_KEY settings) [ALGORITHM settings] = Return p ∧
    jws_payload p = Some claims ∧
    claims !! "exp" = Some (VInt exp) ∧ now < exp * second ∧
    claims !! "sub" = Some (VStr (username td)) ∧ username td ≠ "" ∧
    claims !! "user_id" = Some (VStr us) ∧ uuid_of_str us = Some (user_id td).

End TokenValidity.

(** The caller owns a row with this id. *)
Definition owns (session : AsyncSession) (uid todo_id : uuid) : Prop :=
  ∃ t, t ∈ todos session ∧ todo_id_of t = todo_id ∧ todo_user_id t = uid.

(** A create body with the owner field replaced. *)
Definition with_body_owner (todo_create : TodoCreate) (owner : option uuid) : TodoCreate :=
  {| tc_title := tc_title todo_create;
     tc_description := tc_description todo_create;
     tc_completed := tc_completed todo_create;
     tc_user_id := owner |}.

(** The payload [login_user] builds for a user. *)
Definition login_claims `{UuidText} (user : User) : gmap string value :=
  {[ "sub" := VStr (email user);
     "user_id" := VStr (str_of_uuid (user_id_of user)) ]}.

(** ** Concrete data, on the reference instance *)

Section Demo.
#[local] Existing Instance Reference.pbkdf2.
#[local] Existing Instance Reference.jose.
#[local] Existing Instance Reference.uuid_text.

Definition demo_settings : Settings := Reference.settings.

Definition alice_id : uuid := 7%N.
Definition bob_id : uuid := 9%N.

Definition alice : User :=
  {| user_id_of := alice_id;
     email := "alice@example.com";
     hashed_password := pbkdf2_digest "salt-a" "wonderland" |}.

Definition bob : User :=
  {| user_id_of := bob_id;
     email := "bob@example.com";
     hashed_password := pbkdf2_digest "salt-b" "builder" |}.

(** The payload [login_user] builds for alice. *)
Definition alice_claims : gmap string value :=
  {[ "sub" := VStr "alice@example.com";
     "user_id" := VStr (str_of_uuid alice_id) ]}.

Definition alice_data : TokenData :=
  {| username := "alice@example.com"; user_id := alice_id |}.

(** A store of dictionaries holding alice's payload at address 0. *)
Definition demo_heap : gmap nat (gmap string value) := {[ 0%nat := alice_claims ]}.

Definition week : timedelta := timedelta_days 7.

(** A token of alice's that expires at second 100. *)
Definition token_exp_100 : string :=
  signed_token demo_settings (<["exp" := VInt 100]> alice_claims).

(** A token of alice's that carries no expiry at all. *)
Definition token_no_exp : string := signed_token demo_settings alice_claims.

(** The token a login at time 0 hands alice: it expires at second 604800. *)
Definition alice_token : string :=
  signed_token demo_settings (<["exp" := VInt 604800]> alice_claims).

Definition alice_request : Request :=
  {| cookies := {[ "access_token" := alice_token ]} |}.

Definition an_hour_later : datetime := 3600 * second.

(** A bound for the pages of the list route. *)
Definition demo_max_page_size : Z := 100.

Definition milk : Todo :=
  {| todo_id_of := 100%N; todo_user_id := alice_id; title := "buy milk";
     description := None; completed := false; created_at := 0; updated_at := 0 |}.

Definition bread : Todo :=
  {| todo_id_of := 200%N; todo_user_id := bob_id; title := "bake bread";
     description := None; completed := false; created_at := 0; updated_at := 0 |}.

Definition demo_session : AsyncSession :=
  {| users := [alice; bob]; todos := [milk; bread]; fault := None |}.

(** A row whose password column holds no digest of the scheme. *)
Definition dave : User :=
  {| user_id_of := 11%N;
     email := "dave@example.com";
     hashed_password := "wonderland" |}.

Definition legacy_session : AsyncSession :=
  {| users := [dave]; todos := []; fault := None |}.

(** A password one character over the library's bound. *)
Definition oversized_password : string :=
  string_of_list_ascii (replicate (S MAX_PASSWORD_SIZE) "a"%char).

(** The store after alice's row was removed from the user table. *)
Definition session_without_alice : AsyncSession :=
  {| users := [bob]; todos := [milk; bread]; fault := None |}.

Definition demo_update : TodoUpdate :=
  {| tu_title := "buy oat milk"; tu_description := None; tu_completed := true |}.

Definition demo_patch : TodoPatch :=
  {| tp_title := None; tp_description := None; tp_completed := Some true |}.

(** A create body in which the client names bob as the owner. *)
Definition spoofed_create : TodoCreate :=
  {| tc_title := "walk the dog"; tc_description := None; tc_completed := false;
     tc_user_id := Some bob_id |}.

End Demo.

Definition alice_login : LoginRequest :=
  {| lr_email := "alice@example.com"; lr_password := "wonderland" |}.

Definition alice_wrong_login : LoginRequest :=
  {| lr_email := "alice@example.com"; lr_password := "builder" |}.

Definition carol_login : LoginRequest :=
  {| lr_email := "carol@example.com"; lr_password := "wonderland" |}.

Definition alice_oversized_login : LoginRequest :=
  {| lr_email := "alice@example.com"; lr_password := oversized_password |}.

Definition carol_oversized_login : LoginRequest :=
  {| lr_email := "carol@example.com"; lr_password := oversized_password |}.

(** A JSON reader that accepts nothing, standing for a text [json.loads]
    rejects. *)
Definition no_json (val : string) : option unit := None.

(** * Properties *)

(** ** Helpers on lists and strings *)

Lemma String_eqb_true (s1 s2 : string) : String.eqb s1 s2 = true ↔ s1 = s2.
Proof. apply String.eqb_eq. Qed.

Lemma String_eqb_false (s1 s2 : string) : String.eqb s1 s2 = false ↔ s1 ≠ s2.
Proof. apply String.eqb_neq. Qed.

Lemma first_filter_Some {A} (P : A → Prop) `{∀ x, Decision (P x)} (l : list A) x :
  first (filter P l) = Some x → x ∈ l ∧ P x.
Proof.
  unfold first. intros Hx. apply head_Some_elem_of in Hx.
  by apply list_elem_of_filter in Hx as [? ?].
Qed.

Lemma first_filter_None {A} (P : A → Prop) `{∀ x, Decision (P x)} (l : list A) :
  first (filter P l) = None → ∀ x, x ∈ l → ¬ P x.
Proof.
  unfold first. intros Hnone x Hx HP.
  assert (Hin : x ∈ filter P l) by (apply list_elem_of_filter; done).
  destruct (filter P l); [by apply elem_of_nil in Hin | done].
Qed.

Lemma NoDup_fmap_eq {A B} (f : A → B) (l : list A) x y :
  NoDup (f <$> l) → x ∈ l → y ∈ l → f x = f y → x = y.
Proof.
  induction l as [|a l IH]; simpl; intros Hnd Hx Hy Hf.
  - by apply elem_of_nil in Hx.
  - apply list.NoDup_cons in Hnd as [Ha Hnd].
    apply elem_of_cons in Hx as [->|Hx]; apply elem_of_cons in Hy as [->|Hy];
      try done.
    + exfalso. apply Ha. rewrite Hf. by apply list_elem_of_fmap_2.
    + exfalso. apply Ha. rewrite <- Hf. by apply list_elem_of_fmap_2.
    + by apply IH.
Qed.

(** ** The password hasher and the authenticator *)

Section PasslibFacts.
Context `{Pbkdf2}.

Lemma validate_secret_Return (secret : string) :
  validate_secret secret = Return () ↔ secret_accepted secret.
Proof.
  unfold validate_secret, secret_accepted.
  destruct (MAX_PASSWORD_SIZE <? String.length secret)%nat eqn:Hlt.
  - apply Nat.ltb_lt in Hlt. split; [done|lia].
  - apply Nat.ltb_ge in Hlt. done.
Qed.

Lemma verify_password_Return (plain digest : string) (b : bool) :
  verify_password plain digest = Return b ↔
  identify digest = true ∧ secret_accepted plain ∧
  ∃ h chk, from_string digest = Some h ∧ checksum h = Some chk ∧
           b = String.eqb (calc_checksum plain (salt h) (rounds h)) chk.
Proof.
  unfold verify_password, pwd_context_verify. rewrite <- validate_secret_Return.
  destruct (identify digest); [|split; [done | by intros [? _]]].
  destruct (validate_secret plain) as [[]|e]; simpl;
    [|split; [done | by intros (_ & ? & _)]].
  destruct (from_string digest) as [h|];
    [|split; [done | by intros (_ & _ & h' & ? & ? & _)]].
  destruct (checksum h) as [chk|] eqn:Hchk.
  - split.
    + intros [= <-]. eauto 10.
    + intros (_ & _ & h' & chk' & [= <-] & Hchk' & ->).
      rewrite Hchk in Hchk'. by injection Hchk' as <-.
  - split; [done|]. intros (_ & _ & h' & chk' & [= <-] & Hchk' & _).
    by rewrite Hchk in Hchk'.
Qed.

(** A digest made by [get_password_hash] verifies its own plaintext. *)
Lemma verify_password_get_password_hash (new_salt password digest : string) :
  get_password_hash new_salt password = Return digest →
  verify_password password digest = Return true.
Proof.
  unfold get_password_hash, pwd_context_hash. intros Hhash.
  destruct (validate_secret password) as [[]|e] eqn:Hsize; [|done].
  simpl in Hhash. injection Hhash as <-.
  apply verify_password_Return. unfold pbkdf2_digest, identify.
  split; [apply to_string_ident|]. split; [by apply validate_secret_Return|].
  eexists _, _. split; [apply from_to_string|]. simpl. split; [done|].
  symmetry. by apply String_eqb_true.
Qed.

(** C7, as amended.  On a plaintext within the library's size bound and a
    digest in the scheme's format, password verification returns a boolean:
    [true] when the digest's checksum is the one derived from the plaintext,
    [false] on a mismatch.  On every other input -- a digest that is not in
    the scheme's format, a plaintext over the bound -- it raises. *)
Theorem verify_password_outcome (plain digest : string) :
  (verify_password plain digest = Return true ↔
     secret_accepted plain ∧ well_formed_digest digest ∧
     produced_from plain digest) ∧
  (verify_password plain digest = Return false ↔
     secret_accepted plain ∧ well_formed_digest digest ∧
     ¬ produced_from plain digest) ∧
  ((∃ e, verify_password plain digest = Raise e) ↔
     ¬ (secret_accepted plain ∧ well_formed_digest digest)).
Proof.
  unfold well_formed_digest, produced_from. split; [|split].
  - rewrite verify_password_Return. split.
    + intros (Hid & Hsz & h & chk & Hh & Hchk & Heq).
      symmetry in Heq. apply String_eqb_true in Heq. subst chk. eauto 10.
    + intros (Hsz & (Hid & _) & h & Hh & Hchk).
      repeat (split; [done|]). exists h. eexists. repeat (split; [done|]).
      symmetry. by apply String_eqb_true.
  - rewrite verify_password_Return. split.
    + intros (Hid & Hsz & h & chk & Hh & Hchk & Heq).
      symmetry in Heq. apply String_eqb_false in Heq.
      repeat (split; [eauto|]). intros (h' & Hh' & Hchk').
      rewrite Hh in Hh'. injection Hh' as <-. congruence.
    + intros (Hsz & (Hid & h & chk & Hh & Hchk) & Hnot).
      repeat (split; [done|]). exists h, chk. repeat (split; [done|]).
      symmetry. apply String_eqb_false. intros Heq. apply Hnot.
      exists h. split; [done|]. congruence.
  - split.
    + intros [e He] (Hsz & Hid & h & chk & Hh & Hchk). revert He.
      unfold verify_password, pwd_context_verify.
      apply validate_secret_Return in Hsz. by rewrite Hid, Hsz, Hh, Hchk.
    + intros Hnot. destruct (verify_password plain digest) as [b|e] eqn:Hv; [|eauto].
      exfalso. apply Hnot.
      apply verify_password_Return in Hv as (Hid & Hsz & h & chk & Hh & Hchk & _).
      eauto 10.
Qed.

Lemma authenticate_user_unfold (session : AsyncSession) (email_ password : string) :
  fault session = None →
  authenticate_user session email_ password =
  match first (filter (λ u, String.eqb (email u) email_ = true) (users session)) with
  | None => Return None
  | Some user =>
      match verify_password password (hashed_password user) with
      | Return ok => if negb ok then Return None else Return (Some user)
      | Raise e => Raise e
      end
  end.
Proof.
  intros Hf. unfold authenticate_user, execute_select_users. rewrite Hf. simpl.
  destruct (first _); [|done]. simpl. by destruct (verify_password _ _).
Qed.

(** Verification raises exactly outside of the plaintexts within the size
    bound paired with digests in the scheme's format. *)
Lemma verify_password_Raise (plain digest : string) :
  (∃ e, verify_password plain digest = Raise e) ↔
  ¬ (secret_accepted plain ∧ well_formed_digest digest).
Proof.
  split.
  - intros [e He] (Hsz & Hid & h & chk & Hh & Hchk). revert He.
    unfold verify_password, pwd_context_verify.
    apply validate_secret_Return in Hsz. by rewrite Hid, Hsz, Hh, Hchk.
  - intros Hnot. destruct (verify_password plain digest) as [b|e] eqn:Hv; [|eauto].
    exfalso. apply Hnot.
    apply verify_password_Return in Hv as (Hid & Hsz & h & chk & Hh & Hchk & _).
    split; [done|]. split; [done|]. eauto.
Qed.

(** C5, as amended.  With the store reachable and emails unique in it, for
    every email and password: [authenticate_user] returns a user exactly
    when that user's stored email equals the given one and the stored hash
    verifies the password; it returns none exactly when no user has the
    email, or the user who has it exists and verification returns [false];
    and it raises, returning neither, exactly when the user exists and
    verification raises -- the same exception -- which is when the password
    is over the library's size bound or the stored hash is not a digest in
    the scheme's format. *)
Theorem authenticate_user_correct (session : AsyncSession) (email_ password : string) :
  fault session = None →
  NoDup (email <$> users session) →
  (∀ u, authenticate_user session email_ password = Return (Some u) ↔
        u ∈ users session ∧ email u = email_ ∧
        verify_password password (hashed_password u) = Return true) ∧
  (authenticate_user session email_ password = Return None ↔
     (∀ u, u ∈ users session → email u ≠ email_) ∨
     (∃ u, u ∈ users session ∧ email u = email_ ∧
           verify_password password (hashed_password u) = Return false)) ∧
  (∀ e, authenticate_user session email_ password = Raise e ↔
        ∃ u, u ∈ users session ∧ email u = email_ ∧
             verify_password password (hashed_password u) = Raise e) ∧
  (∀ u, u ∈ users session → email u = email_ →
        ((∃ e, authenticate_user session email_ password = Raise e) ↔
         ¬ (secret_accepted password ∧ well_formed_digest (hashed_password u)))).
Proof.
  intros Hf Hnd. rewrite (authenticate_user_unfold _ _ _ Hf).
  destruct (first _) as [user|] eqn:Hfirst.
  - apply first_filter_Some in Hfirst as [Hin Hmail].
    apply String_eqb_true in Hmail.
    assert (Huniq : ∀ u, u ∈ users session → email u = email_ → u = user).
    { intros u Hu Hue. apply (NoDup_fmap_eq email (users session)); congruence. }
    split; [|split; [|split]].
    + intros u. split.
      * destruct (verify_password _ _) as [[]|] eqn:Hv; simpl; intros [= <-].
        done.
      * intros (Hu & Hue & Hv). rewrite (Huniq u Hu Hue) in *. by rewrite Hv.
    + split.
      * destruct (verify_password _ _) as [[]|] eqn:Hv; simpl; [done| |done].
        intros _. right. by exists user.
      * intros [Hno|(u & Hu & Hue & Hv)]; [by destruct (Hno user Hin)|].
        rewrite (Huniq u Hu Hue) in *. by rewrite Hv.
    + intros e. split.
      * destruct (verify_password _ _) as [[]|e'] eqn:Hv; simpl; intros [= <-].
        by exists user.
      * intros (u & Hu & Hue & Hv). rewrite (Huniq u Hu Hue) in *. by rewrite Hv.
    + intros u Hu Hue. rewrite (Huniq u Hu Hue) in *.
      rewrite <- verify_password_Raise.
      destruct (verify_password _ _) as [[]|e'] eqn:Hv; simpl;
        (split; intros [e He]; [done || eauto ..]).
  - pose proof (first_filter_None _ _ Hfirst) as Hno.
    assert (Hnone : ∀ u, u ∈ users session → email u ≠ email_).
    { intros u Hu Hue. apply (Hno u Hu). by apply String_eqb_true. }
    split; [|split; [|split]].
    + intros u. split; [done|]. intros (Hu & Hue & _). by destruct (Hnone u Hu).
    + split; [by left|done].
    + intros e. split; [done|]. intros (u & Hu & Hue & _). by destruct (Hnone u Hu).
    + intros u Hu Hue. by destruct (Hnone u Hu).
Qed.

(** A verification that raises is never turned into a user either. *)
Lemma authenticate_user_no_user_on_failure (session : AsyncSession)
  (email_ password : string) (u : User) :
  authenticate_user session email_ password = Return (Some u) →
  verify_password password (hashed_password u) = Return true.
Proof.
  unfold authenticate_user, execute_select_users.
  destruct (fault session); [done|]. simpl.
  destruct (first _) as [user|]; [|done]. simpl.
  destruct (verify_password _ _) as [[]|] eqn:Hv; simpl; congruence.
Qed.

End PasslibFacts.

(** ** The token codec *)

Lemma json_serializable_true (claims : gmap string value) :
  json_serializable claims = true ↔
  ∀ k v, claims !! k = Some v → is_datetime v = false.
Proof.
  unfold json_serializable. rewrite forallb_forall. split.
  - intros Hall k v Hkv.
    specialize (Hall (k, v)). simpl in Hall.
    apply negb_true_iff, Hall, list_elem_of_In. by apply elem_of_map_to_list.
  - intros Hall [k v] Hin. simpl. apply negb_true_iff, (Hall k).
    by apply elem_of_map_to_list, list_elem_of_In.
Qed.

Lemma convert_time_claim_ne (k k' : string) (claims : gmap string value) :
  k ≠ k' → convert_time_claim k claims !! k' = claims !! k'.
Proof.
  intros Hne. unfold convert_time_claim.
  destruct (claims !! k) as [[]|]; try done. by rewrite lookup_insert_ne.
Qed.

Lemma convert_time_claim_absent (k : string) (claims : gmap string value) :
  claims !! k = None → convert_time_claim k claims = claims.
Proof. intros Hk. unfold convert_time_claim. by rewrite Hk. Qed.

(** Whatever the caller's dictionary holds under ["exp"], the signed payload
    holds the computed expiry there, in whole seconds. *)
Lemma claims_to_sign_exp settings d expires_delta now :
  claims_to_sign settings d expires_delta now !! "exp"
  = Some (VInt (timegm (expiry settings expires_delta now))).
Proof.
  unfold claims_to_sign, convert_time_claims.
  rewrite !convert_time_claim_ne by done.
  unfold convert_time_claim. rewrite lookup_insert_eq. apply lookup_insert_eq.
Qed.

Lemma claims_to_sign_private settings d expires_delta now :
  private_claims_only d →
  claims_to_sign settings d expires_delta now
  = <["exp" := VInt (timegm (expiry settings expires_delta now))]> d.
Proof.
  intros (Hiat & Hnbf & _). unfold claims_to_sign, convert_time_claims.
  assert (Hexp : ∀ v, convert_time_claim "exp"
                        (<["exp" := VDatetime v]> d)
                      = <["exp" := VInt (timegm v)]> d).
  { intros v. unfold convert_time_claim.
    rewrite lookup_insert_eq. apply insert_insert_eq. }
  rewrite Hexp.
  rewrite (convert_time_claim_absent "iat") by by rewrite lookup_insert_ne.
  by rewrite (convert_time_claim_absent "nbf") by by rewrite lookup_insert_ne.
Qed.

Section TokenFacts.
Context `{Jose, UuidText}.
Variable settings : Settings.

(** What [create_access_token] returns: the store with the copy added and
    the token signed over [claims_to_sign]. *)
Lemma create_access_token_eq (h : gmap nat (gmap string value)) (data : nat)
  (expires_delta : option timedelta) (now : datetime) :
  create_access_token settings h data expires_delta now
  = (<[fresh (dom h) := claims_to_sign settings (h !!! data) expires_delta now]> h,
     jws_sign (claims_to_sign settings (h !!! data) expires_delta now)
       (SECRET_KEY settings) (ALGORITHM settings)).
Proof.
  unfold create_access_token, jwt_encode, claims_to_sign, expiry,
    ACCESS_TOKEN_EXPIRE_DAYS.
  rewrite !lookup_total_insert_eq, !insert_insert_eq. done.
Qed.

(** The caller's dictionary is not touched: encoding works on a copy. *)
Lemma create_access_token_frame (h : gmap nat (gmap string value)) (data : nat)
  (expires_delta : option timedelta) (now : datetime) (l : nat) :
  l ∈ dom h →
  (create_access_token settings h data expires_delta now).1 !! l = h !! l.
Proof.
  intros Hl. rewrite create_access_token_eq. simpl.
  apply lookup_insert_ne. intros <-. by apply (is_fresh (dom h)).
Qed.

Lemma jws_sign_Return (claims : gmap string value) :
  supported (ALGORITHM settings) = true →
  json_serializable claims = true →
  jws_sign claims (SECRET_KEY settings) (ALGORITHM settings)
  = Return (compact (signing_input (ALGORITHM settings) claims)
              (mac (ALGORITHM settings) (SECRET_KEY settings)
                 (signing_input (ALGORITHM settings) claims))).
Proof. intros Hs Hj. unfold jws_sign. by rewrite Hs, Hj. Qed.

Lemma supported_nonempty (alg : string) : supported alg = true → alg ≠ "".
Proof. intros Hs ->. by rewrite supported_empty in Hs. Qed.

(** A token signed here with the server's key and algorithm passes
    [jws.verify]. *)
Lemma jws_verify_signed (claims : gmap string value) :
  supported (ALGORITHM settings) = true →
  json_serializable claims = true →
  jws_verify
    (compact (signing_input (ALGORITHM settings) claims)
       (mac (ALGORITHM settings) (SECRET_KEY settings)
          (signing_input (ALGORITHM settings) claims)))
    (SECRET_KEY settings) [ALGORITHM settings]
  = Return {| jws_alg := VStr (ALGORITHM settings);
              jws_signing_input := signing_input (ALGORITHM settings) claims;
              jws_signature := mac (ALGORITHM settings) (SECRET_KEY settings)
                                 (signing_input (ALGORITHM settings) claims);
              jws_payload := Some claims |}.
Proof.
  intros Hs Hj. unfold jws_verify. rewrite load_compact by done. simpl.
  pose proof (proj2 (String_eqb_false _ _) (supported_nonempty _ Hs)) as Hne.
  rewrite Hne. simpl.
  rewrite bool_decide_true by apply list_elem_of_here.
  rewrite Hs. by rewrite String.eqb_refl.
Qed.

End TokenFacts.

(** The conditions [_validate_claims] puts on a payload, at clock [now] in
    whole seconds. *)
Section ClaimChecks.
Context `{Jose}.

Lemma bind_unit_Return {A} (r : result unit) (k : result A) (a : A) :
  (r ≫= λ _, k) = Return a ↔ r = Return () ∧ k = Return a.
Proof. destruct r as [[]|e]; simpl; [tauto|]. split; [done|by intros [? _]]. Qed.

Lemma validate_iat_Return claims : validate_iat claims = Return () ↔ iat_ok claims.
Proof.
  unfold validate_iat, iat_ok. destruct (claims !! "iat") as [v|]; [|done].
  destruct (py_int v) as [z|e]; simpl.
  - split; [eauto|done].
  - split; [done|by intros [? ?]].
Qed.

Lemma validate_nbf_Return claims now :
  validate_nbf claims now = Return () ↔ nbf_ok claims now.
Proof.
  unfold validate_nbf, nbf_ok. destruct (claims !! "nbf") as [v|]; [|done].
  destruct (py_int v) as [nbf|e]; simpl.
  - destruct (now <? nbf) eqn:Hlt.
    + apply Z.ltb_lt in Hlt. split; [done|]. intros (x & [= <-] & ?). lia.
    + apply Z.ltb_ge in Hlt. split; [eauto|done].
  - split; [done|]. by intros (x & ? & _).
Qed.

Lemma validate_exp_Return claims now :
  validate_exp claims now = Return () ↔ not_expired claims now.
Proof.
  unfold validate_exp, not_expired. destruct (claims !! "exp") as [v|]; [|done].
  destruct (py_int v) as [exp|e]; simpl.
  - destruct (exp <? now) eqn:Hlt.
    + apply Z.ltb_lt in Hlt. split; [done|]. intros (x & [= <-] & ?). lia.
    + apply Z.ltb_ge in Hlt. split; [eauto|done].
  - split; [done|]. by intros (x & ? & _).
Qed.

Lemma validate_aud_Return claims :
  validate_aud claims = Return () ↔ claims !! "aud" = None.
Proof. unfold validate_aud. by destruct (claims !! "aud"). Qed.

Lemma validate_sub_Return claims :
  validate_sub claims = Return () ↔ text_or_absent claims "sub".
Proof.
  unfold validate_sub, text_or_absent. destruct (claims !! "sub") as [v|]; [|done].
  by destruct (is_str v).
Qed.

Lemma validate_jti_Return claims :
  validate_jti claims = Return () ↔ text_or_absent claims "jti".
Proof.
  unfold validate_jti, text_or_absent. destruct (claims !! "jti") as [v|]; [|done].
  by destruct (is_str v).
Qed.

Lemma validate_at_hash_Return claims :
  validate_at_hash claims = Return () ↔ claims !! "at_hash" = None.
Proof. unfold validate_at_hash. by destruct (claims !! "at_hash"). Qed.

Lemma validate_claims_Return (claims : gmap string value) (now : Z) :
  validate_claims claims now = Return () ↔
  not_expired claims now ∧ registered_claims_ok claims now.
Proof.
  unfold validate_claims, registered_claims_ok.
  rewrite !bind_unit_Return.
  rewrite validate_iat_Return, validate_nbf_Return, validate_exp_Return,
    validate_aud_Return, validate_sub_Return, validate_jti_Return,
    validate_at_hash_Return.
  tauto.
Qed.

Lemma validate_claims_unit (claims : gmap string value) (now : Z) :
  validate_claims claims now = Return () ∨ ∃ e, validate_claims claims now = Raise e.
Proof. destruct (validate_claims claims now) as [[]|e]; eauto. Qed.

Lemma jwt_decode_Return (token key : string) (algorithms : list string)
  (now : datetime) (claims : gmap string value) :
  jwt_decode token key algorithms now = Return claims ↔
  ∃ p, jws_verify token key algorithms = Return p ∧
       jws_payload p = Some claims ∧
       validate_claims claims (timegm now) = Return ().
Proof.
  unfold jwt_decode. destruct (jws_verify token key algorithms) as [p|e].
  - destruct (jws_payload p) as [c|] eqn:Hp.
    + destruct (validate_claims_unit c (timegm now)) as [Hv|[e Hv]]; rewrite Hv; simpl.
      * split.
        -- intros [= <-]. eauto.
        -- by intros (p' & [= <-] & Hp' & _); rewrite Hp in Hp'; injection Hp' as ->.
      * split; [done|].
        intros (p' & [= <-] & Hp' & Hv'). rewrite Hp in Hp'. injection Hp' as ->.
        by rewrite Hv in Hv'.
    + split; [done|]. intros (p' & [= <-] & Hp' & _). by rewrite Hp in Hp'.
  - split; [done|]. by intros (p' & ? & _).
Qed.

End ClaimChecks.

Section VerifyToken.
Context `{Jose, UuidText}.
Variable settings : Settings.

Lemma verify_token_unfold (now : datetime) (token : string) :
  verify_token settings now token =
  match jwt_decode token (SECRET_KEY settings) [ALGORITHM settings] now with
  | Return payload => token_data_of payload
  | Raise _ => None
  end.
Proof.
  unfold verify_token, token_data_of.
  destruct (jwt_decode _ _ _ _) as [payload|e]; [|done]. simpl.
  unfold dict_get.
  destruct (payload !! "sub") as [vs|]; simpl;
    [|by destruct (payload !! "user_id") as [[]|]].
  destruct (payload !! "user_id") as [vu|]; simpl;
    [|by rewrite orb_true_r; destruct vs].
  destruct (truthy vs) eqn:Hs; simpl.
  2:{ destruct vs; try done. destruct vu; try done. simpl in Hs.
      apply negb_false_iff in Hs. by rewrite Hs. }
  destruct (truthy vu) eqn:Hu; simpl.
  2:{ destruct vs; try done. destruct vu; try done. simpl in Hu.
      apply negb_false_iff, String_eqb_true in Hu. subst.
      rewrite uuid_of_str_empty. simpl. by destruct (String.eqb _ _). }
  destruct vu as [|b|z|us|t]; try (by destruct vs).
  simpl. destruct (uuid_of_str us) as [u|]; simpl.
  - destruct vs as [|b|z|s|t]; try done. simpl in Hs.
    apply negb_true_iff in Hs. by rewrite Hs.
  - destruct vs as [|b|z|s|t]; try done. by destruct (String.eqb _ _).
Qed.

Lemma token_data_of_Some (payload : gmap string value) (td : TokenData) :
  token_data_of payload = Some td ↔
  payload !! "sub" = Some (VStr (username td)) ∧ username td ≠ "" ∧
  ∃ us, payload !! "user_id" = Some (VStr us) ∧ uuid_of_str us = Some (user_id td).
Proof.
  unfold token_data_of. split.
  - destruct (payload !! "sub") as [[| | |s|]|]; try done.
    destruct (payload !! "user_id") as [[| | |us|]|]; try done.
    destruct (String.eqb s "") eqn:Hs; [done|].
    apply String_eqb_false in Hs.
    destruct (uuid_of_str us) as [u|] eqn:Hu; simpl; [|done].
    intros [= <-]. simpl. eauto.
  - intros (-> & Hne & us & -> & Hu).
    apply String_eqb_false in Hne. rewrite Hne, Hu. simpl. by destruct td.
Qed.

(** C4, as amended.  [verify_token] returns the decoded claims exactly
    when the signature verifies against the server secret, the payload
    passes the library's checks of the registered claims -- among them:
    the expiry, if the token has one, is not earlier than the current time
    in whole seconds -- the subject is present and non-empty and the user
    id parses as an identifier.  Every other input gives the one result
    [None]; being a total function into an option, it never raises. *)
Theorem verify_token_valid (now : datetime) (token : string) :
  (∀ td, verify_token settings now token = Some td ↔ valid_token settings now token td) ∧
  (verify_token settings now token = None ↔ ∀ td, ¬ valid_token settings now token td).
Proof.
  assert (Hiff : ∀ td, verify_token settings now token = Some td
                       ↔ valid_token settings now token td).
  { intros td. rewrite verify_token_unfold. unfold valid_token. split.
    - destruct (jwt_decode _ _ _ _) as [payload|e] eqn:Hd; [|done].
      intros Htd. apply jwt_decode_Return in Hd as (p & Hp & Hpl & Hv).
      apply validate_claims_Return in Hv as [Hexp Hreg].
      apply token_data_of_Some in Htd as (Hsub & Hne & us & Hus & Hu).
      exists p, payload, us. done.
    - intros (p & claims & us & Hp & Hpl & Hexp & Hreg & Hsub & Hne & Hus & Hu).
      assert (Hd : jwt_decode token (SECRET_KEY settings) [ALGORITHM settings] now
                   = Return claims).
      { apply jwt_decode_Return. exists p. split; [done|]. split; [done|].
        by apply validate_claims_Return. }
      rewrite Hd. apply token_data_of_Some. eauto. }
  split; [done|]. split.
  - intros Hnone td Hv. apply Hiff in Hv. congruence.
  - intros Hno. destruct (verify_token settings now token) as [td|] eqn:Hv; [|done].
    exfalso. by apply (Hno td), Hiff.
Qed.

(** A payload signed with the server's key is accepted or not by its
    content alone. *)
Lemma verify_token_signed (now : datetime) (claims : gmap string value) :
  supported (ALGORITHM settings) = true →
  json_serializable claims = true →
  verify_token settings now (signed_token settings claims) =
  match validate_claims claims (timegm now) with
  | Return _ => token_data_of claims
  | Raise _ => None
  end.
Proof.
  intros Hs Hj. rewrite verify_token_unfold. unfold jwt_decode, signed_token.
  rewrite (jws_verify_signed settings claims Hs Hj). simpl.
  by destruct (validate_claims _ _) as [[]|].
Qed.

End VerifyToken.

(** ** Encoding and decoding a token *)

Lemma timegm_mono (t1 t2 : datetime) : t1 ≤ t2 → timegm t1 ≤ timegm t2.
Proof. intros Hle. apply Z.div_le_mono; [done|lia]. Qed.

Lemma timegm_next_second (t1 t2 : datetime) :
  t1 + second ≤ t2 → timegm t1 < timegm t2.
Proof.
  intros Hle. unfold timegm, second in *.
  pose proof (Z.div_le_mono (t1 + 1 * 1000000) t2 1000000 ltac:(lia) ltac:(lia)) as Hd.
  rewrite Z.div_add in Hd by lia. lia.
Qed.

Section RoundTrip.
Context `{Jose, UuidText}.
Variable settings : Settings.

Lemma json_serializable_private (d : gmap string value) (x : Z) :
  private_claims_only d → json_serializable (<["exp" := VInt x]> d) = true.
Proof.
  intros (_&_&_&_&_&Hdt). apply json_serializable_true. intros k v Hkv.
  apply lookup_insert_Some in Hkv as [[_ <-]|[Hne Hkv]]; [done|].
  destruct v; try done. by destruct (Hne (eq_sym (Hdt _ _ Hkv))).
Qed.

(** The token [create_access_token] returns for a payload without
    registered claims of its own. *)
Lemma create_access_token_Return (h : gmap nat (gmap string value)) (data : nat)
  (expires_delta : option timedelta) (now : datetime) :
  supported (ALGORITHM settings) = true →
  private_claims_only (h !!! data) →
  (create_access_token settings h data expires_delta now).2
  = Return (signed_token settings
              (<["exp" := VInt (timegm (expiry settings expires_delta now))]>
                 (h !!! data))).
Proof.
  intros Hs Hp. rewrite create_access_token_eq. simpl.
  rewrite claims_to_sign_private by done.
  apply jws_sign_Return; [done|]. by apply json_serializable_private.
Qed.

Lemma registered_claims_ok_private (d : gmap string value) (x now : Z) (s : string) :
  private_claims_only d → d !! "sub" = Some (VStr s) →
  registered_claims_ok (<["exp" := VInt x]> d) now.
Proof.
  intros (Hiat & Hnbf & Haud & Hjti & Hat & _) Hsub.
  unfold registered_claims_ok, iat_ok, nbf_ok, text_or_absent.
  rewrite !lookup_insert_ne by done.
  by rewrite Hiat, Hnbf, Haud, Hjti, Hat, Hsub.
Qed.

Lemma not_expired_insert (d : gmap string value) (x now : Z) :
  not_expired (<["exp" := VInt x]> d) now ↔ now ≤ x.
Proof.
  unfold not_expired. rewrite lookup_insert_eq. simpl. split.
  - by intros (? & [= <-] & ?).
  - eauto.
Qed.

(** Decoding what was encoded, at clock [now]: the subject and the user id
    come back while the clock's whole second is not past the expiry's, and
    nothing comes back from the next whole second on. *)
Lemma verify_token_of_payload (d : gmap string value) (x : Z) (now : datetime)
  (s us : string) (u : uuid) :
  supported (ALGORITHM settings) = true →
  private_claims_only d →
  d !! "sub" = Some (VStr s) → s ≠ "" →
  d !! "user_id" = Some (VStr us) → uuid_of_str us = Some u →
  verify_token settings now (signed_token settings (<["exp" := VInt x]> d))
  = if timegm now <=? x then Some {| username := s; user_id := u |} else None.
Proof.
  intros Hs Hp Hsub Hne Hus Hu.
  rewrite verify_token_signed by (done || by apply json_serializable_private).
  destruct (timegm now <=? x) eqn:Hle.
  - apply Z.leb_le in Hle.
    assert (Hv : validate_claims (<["exp" := VInt x]> d) (timegm now) = Return ()).
    { apply validate_claims_Return. split; [by apply not_expired_insert|].
      by eapply registered_claims_ok_private. }
    rewrite Hv. apply token_data_of_Some. simpl.
    rewrite !lookup_insert_ne by done. eauto.
  - apply Z.leb_gt in Hle.
    destruct (validate_claims_unit (<["exp" := VInt x]> d) (timegm now))
      as [Hv|[e Hv]]; rewrite Hv; [|done].
    apply validate_claims_Return in Hv as [Hexp _].
    apply not_expired_insert in Hexp. lia.
Qed.

(** With a time-to-live that is not zero, the expiry [create_access_token]
    computes is the time of the call plus the time-to-live. *)
Lemma expiry_time_to_live (expires_delta : option timedelta) (issued : datetime) :
  expires_delta ≠ Some 0 →
  expiry settings expires_delta issued
  = issued + time_to_live settings expires_delta.
Proof.
  intros Hnz. unfold expiry, time_to_live. destruct expires_delta as [d|]; [|done].
  simpl. rewrite (proj2 (Z.eqb_neq d 0)); [done|]. by intros ->.
Qed.

(** C3, as amended.  For a payload holding a non-empty subject and a
    user id that parses, and no registered claim of its own, and for a
    time-to-live [ttl] that is not zero -- the given duration, or the
    configured number of days when none is given -- with the time of issue
    and the expiry [issued + ttl] within the range of [datetime]:
    [create_access_token] returns a token from which [verify_token]
    recovers the subject and the user id at every time strictly before
    [issued + ttl], and still at that expiry and until its whole second is
    over; from the next whole second on the result is [None]. *)
Theorem token_round_trip (h : gmap nat (gmap string value)) (data : nat)
  (expires_delta : option timedelta) (issued : datetime)
  (s us : string) (u : uuid) :
  supported (ALGORITHM settings) = true →
  private_claims_only (h !!! data) →
  (h !!! data) !! "sub" = Some (VStr s) → s ≠ "" →
  (h !!! data) !! "user_id" = Some (VStr us) → uuid_of_str us = Some u →
  expires_delta ≠ Some 0 →
  in_datetime_range issued →
  in_datetime_range (issued + time_to_live settings expires_delta) →
  ∃ token,
    (create_access_token settings h data expires_delta issued).2 = Return token ∧
    (∀ now, now < issued + time_to_live settings expires_delta →
            verify_token settings now token
            = Some {| username := s; user_id := u |}) ∧
    (∀ now, timegm now = timegm (issued + time_to_live settings expires_delta) →
            verify_token settings now token
            = Some {| username := s; user_id := u |}) ∧
    (∀ now, timegm (issued + time_to_live settings expires_delta) < timegm now →
            verify_token settings now token = None) ∧
    (∀ now, issued + time_to_live settings expires_delta + second ≤ now →
            verify_token settings now token = None).
Proof.
  intros Hs Hp Hsub Hne Hus Hu Hnz _ _.
  rewrite <- (expiry_time_to_live expires_delta issued Hnz). eexists.
  split; [by apply create_access_token_Return|].
  repeat split; intros now Hnow;
    rewrite (verify_token_of_payload _ _ now s us u) by done.
  - rewrite (proj2 (Z.leb_le _ _)); [done|]. apply timegm_mono. lia.
  - rewrite (proj2 (Z.leb_le _ _)); [done|]. lia.
  - by rewrite (proj2 (Z.leb_gt _ _)).
  - rewrite (proj2 (Z.leb_gt _ _)); [done|]. by apply timegm_next_second.
Qed.

End RoundTrip.

(** The zero duration is a false value in Python: an explicit
    [timedelta(0)] is treated as no [expires_delta] at all. *)
Lemma expiry_explicit (settings : Settings) (d : timedelta) (now : datetime) :
  d ≠ 0 → expiry settings (Some d) now = now + d.
Proof.
  intros Hd. unfold expiry. simpl.
  by rewrite (proj2 (Z.eqb_neq d 0) Hd).
Qed.

Lemma expiry_default (settings : Settings) (now : datetime) :
  expiry settings None now = now + timedelta_days (jwt_expiry_days settings).
Proof. done. Qed.

(** C10, at the input where it fails.  Asked for a zero time-to-live,
    [create_access_token] does what it does with no [expires_delta]: the
    payload it signs expires the configured number of days after the call,
    not at the time of the call. *)
Theorem create_access_token_zero_delta `{Jose} (settings : Settings)
  (h : gmap nat (gmap string value)) (data : nat) (now : datetime) :
  create_access_token settings h data (Some 0) now
  = create_access_token settings h data None now ∧
  ((create_access_token settings h data (Some 0) now).1 !!! fresh (dom h)) !! "exp"
  = Some (VInt (timegm (now + timedelta_days (ACCESS_TOKEN_EXPIRE_DAYS settings)))).
Proof.
  split; [done|].
  rewrite create_access_token_eq. simpl. rewrite lookup_total_insert_eq.
  apply claims_to_sign_exp.
Qed.

(** ** Concrete runs on the reference instance *)

Section Examples.
#[local] Existing Instance Reference.pbkdf2.
#[local] Existing Instance Reference.jose.
#[local] Existing Instance Reference.uuid_text.

Lemma alice_claims_private : private_claims_only alice_claims.
Proof.
  repeat split; try done. intros k t Hk. unfold alice_claims in Hk.
  apply lookup_insert_Some in Hk as [[_ [=]]|[_ Hk]].
  by apply lookup_singleton_Some in Hk as [_ [=]].
Qed.

Lemma demo_heap_lookup : demo_heap !!! 0%nat = alice_claims.
Proof. apply lookup_total_singleton_eq. Qed.

(** C7, the claim as stated fails: on a digest that is not in the scheme's
    format, [verify_password] raises instead of returning [false]. *)
Lemma verify_password_raises :
  verify_password "wonderland" "wonderland"
  = Raise (Exception "UnknownHashError" "hash could not be identified") ∧
  verify_password "wonderland" "$pbkdf2-sha256$29000$c2FsdA"
  = Raise (Exception "MalformedHashError" "malformed pbkdf2_sha256 hash") ∧
  ¬ (∀ plain digest, ∃ b, verify_password plain digest = Return b).
Proof.
  split; [by vm_compute|]. split; [by vm_compute|].
  intros Hall. by destruct (Hall "wonderland" "wonderland") as [b Hb].
Qed.

(** C3, the claim as stated fails: a token issued at time 0 with the
    default time-to-live of seven days is still decoded at the very
    instant of its expiry, and up to the last microsecond of that second. *)
Lemma token_decoded_at_expiry :
  ∃ token,
    (create_access_token demo_settings demo_heap 0%nat None 0).2 = Return token ∧
    expiry demo_settings None 0 = week ∧
    0 + time_to_live demo_settings None = week ∧
    verify_token demo_settings week token = Some alice_data ∧
    verify_token demo_settings (week + 999999 * microsecond) token = Some alice_data ∧
    ¬ (∀ now, week ≤ now → verify_token demo_settings now token = None).
Proof.
  eexists. split.
  { apply create_access_token_Return; [done|].
    rewrite demo_heap_lookup. apply alice_claims_private. }
  rewrite demo_heap_lookup.
  assert (Hat : ∀ now, timegm now = 604800 →
            verify_token demo_settings now
              (signed_token demo_settings
                 (<["exp" := VInt (timegm (expiry demo_settings None 0))]>
                    alice_claims)) = Some alice_data).
  { intros now Hnow.
    rewrite (verify_token_of_payload demo_settings alice_claims _ now
               "alice@example.com" (str_of_uuid alice_id) alice_id);
      [by rewrite Hnow | done | apply alice_claims_private
      | done | done | done | apply uuid_of_str_of_uuid]. }
  split; [done|]. split; [done|]. split; [by apply Hat|]. split; [by apply Hat|].
  intros Hall. specialize (Hall week ltac:(done)). rewrite Hat in Hall; done.
Qed.

End Examples.

(** ** The claim on validity, read literally *)

Section ValidAsClaimed.
Context `{Jose, UuidText}.
Variable settings : Settings.

(** The payload of a token signed here is the one that was signed. *)
Lemma valid_as_claimed_signed (now : datetime) (claims : gmap string value)
  (td : TokenData) :
  supported (ALGORITHM settings) = true →
  json_serializable claims = true →
  valid_as_claimed settings now (signed_token settings claims) td →
  ∃ exp, claims !! "exp" = Some (VInt exp) ∧ now < exp * second.
Proof.
  intros Hs Hj (p & claims' & exp & us & Hp & Hpl & Hexp & Hlt & _).
  unfold signed_token in Hp. rewrite (jws_verify_signed settings claims Hs Hj) in Hp.
  injection Hp as <-. simpl in Hpl. injection Hpl as <-. eauto.
Qed.

End ValidAsClaimed.

Section ExamplesValidity.
#[local] Existing Instance Reference.jose.
#[local] Existing Instance Reference.uuid_text.

(** C3, a run of the amended statement: alice's payload, issued at time 0
    for the default seven days. *)
Lemma token_round_trip_witness :
  supported (ALGORITHM demo_settings) = true ∧
  private_claims_only (demo_heap !!! 0%nat) ∧
  (demo_heap !!! 0%nat) !! "sub" = Some (VStr "alice@example.com") ∧
  "alice@example.com" ≠ "" ∧
  (demo_heap !!! 0%nat) !! "user_id" = Some (VStr (str_of_uuid alice_id)) ∧
  uuid_of_str (str_of_uuid alice_id) = Some alice_id ∧
  (None : option timedelta) ≠ Some 0 ∧
  in_datetime_range 0 ∧
  in_datetime_range (0 + time_to_live demo_settings None) ∧
  0 + time_to_live demo_settings None = week ∧
  ∃ token,
    (create_access_token demo_settings demo_heap 0%nat None 0).2 = Return token ∧
    verify_token demo_settings (week - microsecond) token = Some alice_data ∧
    verify_token demo_settings (week + second) token = None.
Proof.
  assert (Hs : supported (ALGORITHM demo_settings) = true) by reflexivity.
  assert (Hp : private_claims_only (demo_heap !!! 0%nat)).
  { rewrite demo_heap_lookup. apply alice_claims_private. }
  assert (Hsub : (demo_heap !!! 0%nat) !! "sub" = Some (VStr "alice@example.com"))
    by reflexivity.
  assert (Hne : "alice@example.com" ≠ "") by discriminate.
  assert (Hus : (demo_heap !!! 0%nat) !! "user_id"
                = Some (VStr (str_of_uuid alice_id))) by reflexivity.
  assert (Hu : uuid_of_str (str_of_uuid alice_id) = Some alice_id) by reflexivity.
  assert (Hnz : (None : option timedelta) ≠ Some 0) by discriminate.
  assert (Hissued : in_datetime_range 0) by (split; discriminate).
  assert (Hexpiry : in_datetime_range (0 + time_to_live demo_settings None))
    by (split; discriminate).
  assert (Hweek : 0 + time_to_live demo_settings None = week) by reflexivity.
  repeat (split; [assumption|]).
  destruct (token_round_trip demo_settings demo_heap 0%nat None 0
              "alice@example.com" (str_of_uuid alice_id) alice_id
              Hs Hp Hsub Hne Hus Hu Hnz Hissued Hexpiry)
    as (token & Hcreate & Hbefore & _ & _ & Hafter).
  exists token. split; [exact Hcreate|]. split.
  - apply Hbefore. reflexivity.
  - apply Hafter. discriminate.
Defined.

(** C4, the claim as stated fails.  A token is accepted at the instant of
    its expiry, when the current time is no longer before it; and a
    correctly signed token without any expiry is accepted at every time. *)
Lemma verify_token_accepts_unclaimed :
  (verify_token demo_settings (100 * second) token_exp_100 = Some alice_data ∧
   ¬ valid_as_claimed demo_settings (100 * second) token_exp_100 alice_data) ∧
  (∀ now, verify_token demo_settings now token_no_exp = Some alice_data ∧
          ¬ valid_as_claimed demo_settings now token_no_exp alice_data).
Proof.
  split; [split|intros now; split].
  - unfold token_exp_100.
    rewrite (verify_token_of_payload demo_settings alice_claims 100 (100 * second)
               "alice@example.com" (str_of_uuid alice_id) alice_id);
      [done | done | apply alice_claims_private
      | done | done | done | apply uuid_of_str_of_uuid].
  - intros Hv.
    apply valid_as_claimed_signed in Hv as (exp & Hexp & Hlt); [|done|done].
    rewrite lookup_insert_eq in Hexp. injection Hexp as <-. lia.
  - unfold token_no_exp. rewrite verify_token_signed by done.
    assert (Hv : validate_claims alice_claims (timegm now) = Return ()).
    { apply validate_claims_Return. by repeat split. }
    rewrite Hv. by apply token_data_of_Some; simpl; eauto using uuid_of_str_of_uuid.
  - intros Hv.
    apply valid_as_claimed_signed in Hv as (exp & Hexp & Hlt); [|done|done].
    done.
Qed.

End ExamplesValidity.

(** ** Identity resolution *)

Section CookieFacts.
Context `{Jose, UuidText}.
Variable settings : Settings.
Variable max_page_size : Z.

Lemma get_user_id_from_cookie_Return (request : Request) (now : datetime) (uid : uuid) :
  get_user_id_from_cookie settings request now = Return uid ↔
  ∃ token td, cookies request !! "access_token" = Some token ∧ token ≠ "" ∧
              verify_token settings now token = Some td ∧ user_id td = uid.
Proof.
  unfold get_user_id_from_cookie.
  destruct (cookies request !! "access_token") as [token|];
    [|split; [done|by intros (?&?&?&_)]].
  destruct (String.eqb token "") eqn:Hne.
  { apply String_eqb_true in Hne.
    split; [done|]. by intros (?&?&[= <-]&?&_). }
  apply String_eqb_false in Hne.
  destruct (verify_token settings now token) as [td|] eqn:Hv.
  - split.
    + intros [= <-]. eauto 10.
    + intros (?&?&[= <-]&_&Hv'&<-). rewrite Hv in Hv'. by injection Hv' as <-.
  - split; [done|]. intros (?&?&[= <-]&_&Hv'&_). by rewrite Hv in Hv'.
Qed.

(** Whatever makes [get_user_id_from_cookie] fail -- no cookie, an empty
    one, a token that does not decode or has expired -- the caller sees the
    one [credentials_exception]. *)
Lemma get_user_id_from_cookie_Raise (request : Request) (now : datetime) (e : exn) :
  get_user_id_from_cookie settings request now = Raise e → e = credentials_exception.
Proof.
  unfold get_user_id_from_cookie.
  destruct (cookies request !! "access_token") as [token|]; [|congruence].
  destruct (String.eqb token ""); [congruence|].
  destruct (verify_token settings now token); congruence.
Qed.

Lemma get_current_user_from_cookie_eq (request : Request)
  (session : AsyncSession) (now : datetime) :
  get_current_user_from_cookie settings request session now =
  match get_user_id_from_cookie settings request now with
  | Raise _ => Raise credentials_exception
  | Return uid =>
      match fault session with
      | Some _ => Raise credentials_exception
      | None =>
          match first (filter (λ u, user_id_of u = uid) (users session)) with
          | None => Raise credentials_exception
          | Some user => Return (UserRead_model_validate user)
          end
      end
  end.
Proof.
  unfold get_current_user_from_cookie, get_user_id_from_cookie, try_except,
    execute_select_users.
  destruct (cookies request !! "access_token") as [token|]; [|done].
  destruct (String.eqb token ""); [done|].
  destruct (verify_token settings now token) as [td|]; [|done].
  destruct (fault session); [done|]. simpl.
  assert (Hf : filter (λ u, bool_decide (user_id_of u = user_id td) = true)
                 (users session)
               = filter (λ u, user_id_of u = user_id td) (users session)).
  { apply list_filter_iff. intros u. by rewrite bool_decide_eq_true. }
  rewrite Hf. by destruct (first _).
Qed.

(** So does [get_current_user_from_cookie], for the same causes and for a
    user that is no longer in the store or a store that cannot be read. *)
Lemma get_current_user_from_cookie_Raise (request : Request)
  (session : AsyncSession) (now : datetime) (e : exn) :
  get_current_user_from_cookie settings request session now = Raise e →
  e = credentials_exception.
Proof.
  rewrite get_current_user_from_cookie_eq.
  destruct (get_user_id_from_cookie settings request now); [|congruence].
  destruct (fault session); [congruence|].
  destruct (first _); congruence.
Qed.

(** The two resolutions agree on every failure of the token itself. *)
Lemma identity_failure_uniform (request : Request) (session : AsyncSession)
  (now : datetime) (e : exn) :
  get_user_id_from_cookie settings request now = Raise e →
  get_user_id_from_cookie settings request now = Raise credentials_exception ∧
  get_current_user_from_cookie settings request session now
  = Raise credentials_exception.
Proof.
  intros He. rewrite get_current_user_from_cookie_eq.
  pose proof (get_user_id_from_cookie_Raise _ _ _ He) as ->. by rewrite He.
Qed.

(** No todo operation runs for an unresolved identity: every route fails
    with the resolution's own exception. *)
Lemma todo_routes_unauthenticated (request : Request) (session : AsyncSession)
  (now : datetime) (e : exn) (todo_id new_id : uuid) (todo_create : TodoCreate)
  (todo_update : TodoUpdate) (todo_patch : TodoPatch) (skip limit : option Z) :
  get_user_id_from_cookie settings request now = Raise e →
  create_todo settings request session todo_create new_id now
  = Raise credentials_exception ∧
  get_todo settings todo_id request session now = Raise credentials_exception ∧
  get_todos settings max_page_size request session skip limit now = Raise credentials_exception ∧
  update_todo settings todo_id todo_update request session now
  = Raise credentials_exception ∧
  patch_todo settings todo_id todo_patch request session now
  = Raise credentials_exception ∧
  delete_todo settings todo_id request session now = Raise credentials_exception ∧
  toggle_todo_completion settings todo_id request session now
  = Raise credentials_exception.
Proof.
  intros He. pose proof (get_user_id_from_cookie_Raise _ _ _ He) as ->.
  unfold create_todo, get_todo, get_todos, update_todo, patch_todo, delete_todo,
    toggle_todo_completion.
  by rewrite He.
Qed.

(** C6, at the input where it fails.  A request whose token decodes to a
    user id that no row of the user table carries is turned away by
    [get_current_user_from_cookie], but [get_user_id_from_cookie] resolves
    it, and the todo routes, which use the latter, serve it: the list
    route returns a page and the create route stores a row for the absent
    user. *)
Theorem deleted_user_served_by_todo_routes (request : Request)
  (session : AsyncSession) (now : datetime) (uid : uuid) :
  get_user_id_from_cookie settings request now = Return uid →
  fault session = None →
  (∀ u, u ∈ users session → user_id_of u ≠ uid) →
  get_current_user_from_cookie settings request session now
  = Raise credentials_exception ∧
  (∀ skip limit, ∃ page,
     get_todos settings max_page_size request session skip limit now = Return page) ∧
  (∀ todo_create new_id, ∃ t session',
     create_todo settings request session todo_create new_id now
     = Return (t, session') ∧
     todo_user_id t = uid ∧ t ∈ todos session').
Proof.
  intros Hid Hf Hgone. split; [|split].
  - rewrite get_current_user_from_cookie_eq, Hid, Hf.
    destruct (first _) as [user|] eqn:Hfirst; [|done].
    apply first_filter_Some in Hfirst as [Hin Hu]. by destruct (Hgone user Hin).
  - intros skip limit. unfold get_todos. rewrite Hid. simpl.
    unfold TodoService.get_todos_by_user, TodoService.store_fault.
    rewrite Hf. simpl. eauto.
  - intros todo_create new_id. unfold create_todo. rewrite Hid. simpl.
    unfold TodoService.create_todo, TodoService.store_fault. rewrite Hf. simpl.
    eexists _, _. split; [done|]. split; [done|]. simpl.
    apply elem_of_app. right. apply list_elem_of_here.
Qed.

End CookieFacts.

(** ** Login *)

Section LoginFacts.
Context `{Pbkdf2, Jose, UuidText}.
Variable settings : Settings.

(** C8, at the input where it fails.  When the store cannot be read, the
    text of the store's exception is put, word for word, into the detail
    of the 500 response of the login route. *)
Theorem login_user_echoes_exception_text (login_request : LoginRequest)
  (rows : list User) (items : list Todo) (msg : string) (now : datetime) :
  login_user settings login_request
    {| users := rows; todos := items; fault := Some msg |} now
  = Raise (HTTPException 500 ("Internal Server Error: " +:+ msg) []).
Proof. done. Qed.

(** The sibling route answers an internal failure with a fixed text. *)
Lemma register_user_generic_detail (cls msg : string) :
  register_user (Raise (Exception cls msg))
  = Raise (HTTPException 500 "An error occurred during user registration" []).
Proof. done. Qed.

(** A stored hash the hasher cannot read fails the login the same way,
    the library's message echoed. *)
Lemma login_user_echoes_hasher_text (login_request : LoginRequest)
  (session : AsyncSession) (now : datetime) (user : User) (rest : list User) :
  fault session = None →
  filter (λ u, String.eqb (email u) (lr_email login_request) = true) (users session)
  = user :: rest →
  identify (hashed_password user) = false →
  login_user settings login_request session now
  = Raise (HTTPException 500
             "Internal Server Error: hash could not be identified" []).
Proof.
  intros Hf Hrows Hid.
  unfold login_user, authenticate_user, execute_select_users.
  rewrite Hf. simpl. rewrite Hrows. simpl.
  unfold verify_password, pwd_context_verify. by rewrite Hid.
Qed.

(** Credentials [authenticate_user] turns down by returning none are
    answered 401. *)
Lemma login_user_unauthorized (login_request : LoginRequest)
  (session : AsyncSession) (now : datetime) :
  authenticate_user session (lr_email login_request) (lr_password login_request)
  = Return None →
  login_user settings login_request session now
  = Raise (HTTPException 401 "Incorrect email or password"
             [("WWW-Authenticate", "Bearer")]).
Proof. intros Ha. unfold login_user. by rewrite Ha. Qed.

End LoginFacts.

(** ** The todo routes *)

Lemma owned_by_true (todo_id uid : uuid) (t : Todo) :
  TodoService.owned_by todo_id uid t = true ↔
  todo_id_of t = todo_id ∧ todo_user_id t = uid.
Proof.
  unfold TodoService.owned_by.
  by rewrite andb_true_iff, !bool_decide_eq_true.
Qed.

Lemma fetch_owned (session : AsyncSession) (todo_id uid : uuid) :
  fault session = None → owns session uid todo_id →
  ∃ t, TodoService.fetch session todo_id uid = Return t ∧
       t ∈ todos session ∧ todo_id_of t = todo_id ∧ todo_user_id t = uid.
Proof.
  intros Hf (t & Hin & Hid & Hown).
  unfold TodoService.fetch, TodoService.store_fault. rewrite Hf. simpl.
  destruct (find _ (todos session)) as [t'|] eqn:Hfind.
  - apply find_some in Hfind as [Hin' Ht'].
    apply owned_by_true in Ht' as [? ?]. exists t'.
    by rewrite list_elem_of_In.
  - apply list_elem_of_In in Hin.
    pose proof (find_none _ _ Hfind t Hin) as Hno.
    assert (TodoService.owned_by todo_id uid t = true) by by apply owned_by_true.
    congruence.
Qed.

Lemma fetch_Return_owns (session : AsyncSession) (todo_id uid : uuid) (t : Todo) :
  TodoService.fetch session todo_id uid = Return t → owns session uid todo_id.
Proof.
  unfold TodoService.fetch, TodoService.store_fault.
  destruct (fault session); [done|]. simpl.
  destruct (find _ (todos session)) as [t'|] eqn:Hfind; [|done]. intros _.
  apply find_some in Hfind as [Hin Ht']. apply owned_by_true in Ht' as [? ?].
  exists t'. by rewrite list_elem_of_In.
Qed.

Lemma fetch_not_owned (session : AsyncSession) (todo_id uid : uuid) :
  fault session = None → ¬ owns session uid todo_id →
  TodoService.fetch session todo_id uid = Raise TodoService.not_found.
Proof.
  intros Hf Hno.
  unfold TodoService.fetch, TodoService.store_fault. rewrite Hf. simpl.
  destruct (find _ (todos session)) as [t|] eqn:Hfind; [|done].
  apply find_some in Hfind as [Hin Ht]. apply owned_by_true in Ht as [? ?].
  destruct Hno. exists t. by rewrite list_elem_of_In.
Qed.

(** No write reaches a row of another owner. *)
Lemma update_rows_other_owner (todo_id uid : uuid) (f : Todo → Todo)
  (ts : list Todo) (other : uuid) :
  (∀ t, todo_user_id (f t) = todo_user_id t) →
  other ≠ uid →
  filter (λ t, todo_user_id t = other) (TodoService.update_rows todo_id uid f ts)
  = filter (λ t, todo_user_id t = other) ts.
Proof.
  intros Hf Hne. unfold TodoService.update_rows.
  induction ts as [|t ts IH]; [done|]. simpl.
  destruct (TodoService.owned_by todo_id uid t) eqn:Ho.
  - apply owned_by_true in Ho as [_ Ho].
    rewrite !filter_cons, IH.
    destruct (decide (todo_user_id t = other)) as [Heq|_]; [congruence|].
    destruct (decide (todo_user_id (f t) = other)) as [Heq|_]; [|done].
    rewrite Hf in Heq. congruence.
  - by rewrite !filter_cons, IH.
Qed.

Lemma delete_rows_other_owner (todo_id uid : uuid) (ts : list Todo) (other : uuid) :
  other ≠ uid →
  filter (λ t, todo_user_id t = other)
    (filter (λ t, TodoService.owned_by todo_id uid t = false) ts)
  = filter (λ t, todo_user_id t = other) ts.
Proof.
  intros Hne. induction ts as [|t ts IH]; [done|].
  rewrite !filter_cons.
  destruct (decide (TodoService.owned_by todo_id uid t = false)) as [Ho|Ho].
  - by rewrite filter_cons, IH.
  - apply not_false_is_true, owned_by_true in Ho as [_ Ho]. rewrite IH.
    destruct (decide (todo_user_id t = other)); [congruence|done].
Qed.

(** Whatever a caller does to a row through the service, the rows of every
    other owner stay as they were. *)
Lemma other_owners_untouched (session session' : AsyncSession)
  (todo_id uid other : uuid) (todo_update : TodoUpdate) (todo_patch : TodoPatch)
  (now : datetime) (t : Todo) :
  other ≠ uid →
  TodoService.update_todo session todo_id todo_update uid now = Return (t, session') ∨
  TodoService.patch_todo session todo_id todo_patch uid now = Return (t, session') ∨
  TodoService.toggle_todo_completion session todo_id uid now = Return (t, session') ∨
  TodoService.delete_todo session todo_id uid = Return ((), session') →
  filter (λ t, todo_user_id t = other) (todos session')
  = filter (λ t, todo_user_id t = other) (todos session).
Proof.
  intros Hne.
  unfold TodoService.update_todo, TodoService.patch_todo,
    TodoService.toggle_todo_completion, TodoService.delete_todo, TodoService.modify.
  destruct (TodoService.fetch session todo_id uid) as [t0|]; simpl;
    [|by intros [|[|[|]]]].
  intros [[= _ <-]|[[= _ <-]|[[= _ <-]|[= <-]]]]; simpl;
    by (apply update_rows_other_owner || apply delete_rows_other_owner).
Qed.

Section TodoFacts.
Context `{Jose, UuidText}.
Variable settings : Settings.
Variable max_page_size : Z.

(** C1.  For a caller whose identity resolved to [uid], with the store
    reachable: when the caller owns a row with the requested id, each of
    get, update, partial update, delete and toggle succeeds, and get
    returns a row with that id and that owner; none of the five succeeds
    otherwise; when there is no such row -- the id is absent, or the row
    belongs to someone else -- each of the five fails with the same
    not-found exception, a 404. *)
Theorem ownership_isolation (request : Request) (session : AsyncSession)
  (now : datetime) (uid todo_id : uuid)
  (todo_update : TodoUpdate) (todo_patch : TodoPatch) :
  get_user_id_from_cookie settings request now = Return uid →
  fault session = None →
  (owns session uid todo_id →
     (∃ t, get_todo settings todo_id request session now = Return t ∧
           t ∈ todos session ∧ todo_id_of t = todo_id ∧ todo_user_id t = uid) ∧
     is_Return (update_todo settings todo_id todo_update request session now) = true ∧
     is_Return (patch_todo settings todo_id todo_patch request session now) = true ∧
     is_Return (delete_todo settings todo_id request session now) = true ∧
     is_Return (toggle_todo_completion settings todo_id request session now) = true) ∧
  (is_Return (get_todo settings todo_id request session now) = true ∨
   is_Return (update_todo settings todo_id todo_update request session now) = true ∨
   is_Return (patch_todo settings todo_id todo_patch request session now) = true ∨
   is_Return (delete_todo settings todo_id request session now) = true ∨
   is_Return (toggle_todo_completion settings todo_id request session now) = true →
   owns session uid todo_id) ∧
  (¬ owns session uid todo_id →
     get_todo settings todo_id request session now = Raise TodoService.not_found ∧
     update_todo settings todo_id todo_update request session now
     = Raise TodoService.not_found ∧
     patch_todo settings todo_id todo_patch request session now
     = Raise TodoService.not_found ∧
     delete_todo settings todo_id request session now = Raise TodoService.not_found ∧
     toggle_todo_completion settings todo_id request session now
     = Raise TodoService.not_found) ∧
  TodoService.not_found = HTTPException 404 "Todo not found" [].
Proof.
  intros Hid Hf.
  unfold get_todo, update_todo, patch_todo, delete_todo, toggle_todo_completion.
  rewrite Hid. simpl.
  unfold TodoService.get_todo_by_id, TodoService.update_todo,
    TodoService.patch_todo, TodoService.delete_todo,
    TodoService.toggle_todo_completion, TodoService.modify.
  split; [|split; [|split; [|done]]].
  - intros Howns. destruct (fetch_owned _ _ _ Hf Howns) as (t & -> & Ht).
    simpl. split; [eauto|done].
  - destruct (TodoService.fetch session todo_id uid) as [t|e] eqn:Hfetch; simpl.
    + intros _. by apply (fetch_Return_owns _ _ _ t).
    + by intros [|[|[|[|]]]].
  - intros Hno. by rewrite (fetch_not_owned _ _ _ Hf Hno).
Qed.

(** C2.  For a caller whose identity resolved to [uid], with the store
    reachable, the create route stores a row owned by [uid], and the
    outcome is the same whatever owner the request body carries. *)
Theorem create_todo_owner (request : Request) (session : AsyncSession)
  (now : datetime) (uid new_id : uuid) (todo_create : TodoCreate) :
  get_user_id_from_cookie settings request now = Return uid →
  fault session = None →
  (∃ t session',
     create_todo settings request session todo_create new_id now
     = Return (t, session') ∧
     todo_user_id t = uid ∧ t ∈ todos session') ∧
  (∀ owner,
     create_todo settings request session (with_body_owner todo_create owner)
       new_id now
     = create_todo settings request session todo_create new_id now).
Proof.
  intros Hid Hf. unfold create_todo. rewrite Hid. simpl.
  unfold TodoService.create_todo, TodoService.store_fault. rewrite Hf. simpl.
  split; [|done].
  eexists _, _. split; [done|]. split; [done|]. simpl.
  apply elem_of_app. right. apply list_elem_of_here.
Qed.

(** The list route hands the limit in force on to the service as it is: the
    route itself puts no bound on it. *)
Lemma get_todos_forwards_limit (request : Request) (session : AsyncSession)
  (skip limit : Z) (now : datetime) (uid : uuid) :
  get_user_id_from_cookie settings request now = Return uid →
  get_todos settings max_page_size request session (Some skip) (Some limit) now
  = TodoService.get_todos_by_user max_page_size session uid skip limit.
Proof. intros Hid. unfold get_todos. by rewrite Hid. Qed.


End TodoFacts.

(** ** Concrete runs of the routes *)

Section ExamplesRoutes.
#[local] Existing Instance Reference.pbkdf2.
#[local] Existing Instance Reference.jose.
#[local] Existing Instance Reference.uuid_text.

Lemma alice_resolved :
  get_user_id_from_cookie demo_settings alice_request an_hour_later = Return alice_id.
Proof. by vm_compute. Qed.

Lemma demo_login_token :
  (create_access_token demo_settings demo_heap 0%nat (Some week) 0).2
  = Return alice_token.
Proof.
  rewrite create_access_token_Return; [done|done|].
  rewrite demo_heap_lookup. apply alice_claims_private.
Qed.

(** C5, the claim as stated fails: for an existing email and a wrong
    password longer than the library's bound, and for an existing email
    whose stored hash is not a digest of the scheme, [authenticate_user]
    raises instead of returning none. *)
Lemma authenticate_user_may_raise :
  fault demo_session = None ∧
  NoDup (email <$> users demo_session) ∧
  alice ∈ users demo_session ∧
  verify_password oversized_password (hashed_password alice) ≠ Return true ∧
  authenticate_user demo_session "alice@example.com" oversized_password
  = Raise (Exception "PasswordSizeError" "password exceeds maximum allowed size") ∧
  authenticate_user legacy_session "dave@example.com" "wonderland"
  = Raise (Exception "UnknownHashError" "hash could not be identified") ∧
  ¬ (∀ session email_ password,
       fault session = None → NoDup (email <$> users session) →
       (∃ u, authenticate_user session email_ password = Return (Some u)) ∨
       authenticate_user session email_ password = Return None).
Proof.
  assert (Hf : fault demo_session = None) by reflexivity.
  assert (Hnd : NoDup (email <$> users demo_session)).
  { apply (bool_decide_unpack _). vm_compute. exact I. }
  assert (Hraise : authenticate_user demo_session "alice@example.com"
                     oversized_password
                   = Raise (Exception "PasswordSizeError"
                              "password exceeds maximum allowed size"))
    by (vm_compute; reflexivity).
  split; [exact Hf|]. split; [exact Hnd|]. split; [apply list_elem_of_here|].
  split; [vm_compute; discriminate|]. split; [exact Hraise|].
  split; [vm_compute; reflexivity|].
  intros Hall.
  destruct (Hall demo_session "alice@example.com" oversized_password Hf Hnd)
    as [[u Hu]|Hnone]; rewrite Hraise in *; discriminate.
Qed.

(** C5, a run of the amended statement: alice logs in with her password,
    with bob's, and with one over the size bound; carol is unknown. *)
Lemma authenticate_user_correct_witness :
  fault demo_session = None ∧
  NoDup (email <$> users demo_session) ∧
  authenticate_user demo_session "alice@example.com" "wonderland"
  = Return (Some alice) ∧
  authenticate_user demo_session "alice@example.com" "builder" = Return None ∧
  authenticate_user demo_session "carol@example.com" "wonderland" = Return None ∧
  authenticate_user demo_session "alice@example.com" oversized_password
  = Raise (Exception "PasswordSizeError" "password exceeds maximum allowed size").
Proof.
  assert (Hf : fault demo_session = None) by reflexivity.
  assert (Hnd : NoDup (email <$> users demo_session)).
  { apply (bool_decide_unpack _). vm_compute. exact I. }
  split; [exact Hf|]. split; [exact Hnd|].
  split; [|split; [|split]].
  - apply (authenticate_user_correct demo_session "alice@example.com" "wonderland"
             Hf Hnd).
    split; [apply list_elem_of_here|]. split; reflexivity.
  - apply (proj1 (proj2 (authenticate_user_correct demo_session
                           "alice@example.com" "builder" Hf Hnd))).
    right. exists alice. split; [apply list_elem_of_here|].
    split; [reflexivity|]. vm_compute. reflexivity.
  - apply (proj1 (proj2 (authenticate_user_correct demo_session
                           "carol@example.com" "wonderland" Hf Hnd))).
    left. intros u Hu.
    apply elem_of_cons in Hu as [->|Hu]; [discriminate|].
    apply elem_of_cons in Hu as [->|Hu]; [discriminate|].
    by apply elem_of_nil in Hu.
  - apply (proj1 (proj2 (proj2 (authenticate_user_correct demo_session
                                  "alice@example.com" oversized_password Hf Hnd)))).
    exists alice. split; [apply list_elem_of_here|].
    split; [reflexivity|]. vm_compute. reflexivity.
Defined.

Lemma alice_owns_milk : owns demo_session alice_id 100%N.
Proof. exists milk. split; [apply list_elem_of_here|]. split; reflexivity. Qed.

Lemma alice_does_not_own_bread : ¬ owns demo_session alice_id 200%N.
Proof.
  intros (t & Hin & Hid & Hown).
  apply elem_of_cons in Hin as [->|Hin]; [discriminate|].
  apply elem_of_cons in Hin as [->|Hin]; [discriminate|].
  by apply elem_of_nil in Hin.
Qed.

(** C1, a run: alice reads her own row, and bob's row is not found for
    her, nor is a row that does not exist. *)
Lemma ownership_isolation_witness :
  get_user_id_from_cookie demo_settings alice_request an_hour_later
  = Return alice_id ∧
  fault demo_session = None ∧
  (∃ t, get_todo demo_settings 100%N alice_request demo_session an_hour_later
        = Return t ∧ todo_user_id t = alice_id) ∧
  get_todo demo_settings 200%N alice_request demo_session an_hour_later
  = Raise TodoService.not_found ∧
  delete_todo demo_settings 200%N alice_request demo_session an_hour_later
  = Raise TodoService.not_found.
Proof.
  assert (Hf : fault demo_session = None) by reflexivity.
  split; [exact alice_resolved|]. split; [exact Hf|].
  destruct (ownership_isolation demo_settings alice_request demo_session
              an_hour_later alice_id 100%N demo_update demo_patch
              alice_resolved Hf) as (Hyes & _ & _ & _).
  destruct (ownership_isolation demo_settings alice_request demo_session
              an_hour_later alice_id 200%N demo_update demo_patch
              alice_resolved Hf) as (_ & _ & Hno & _).
  destruct (Hyes alice_owns_milk) as ((t & Ht & _ & _ & Hown) & _).
  destruct (Hno alice_does_not_own_bread) as (Hget & _ & _ & Hdel & _).
  split; [exists t; split; [exact Ht|exact Hown]|].
  split; [exact Hget|exact Hdel].
Defined.

(** C2, a run: the row is stored for alice all the same. *)
Lemma create_todo_owner_witness :
  get_user_id_from_cookie demo_settings alice_request an_hour_later
  = Return alice_id ∧
  fault demo_session = None ∧
  ∃ t session',
    create_todo demo_settings alice_request demo_session spoofed_create 300%N
      an_hour_later = Return (t, session') ∧
    todo_user_id t = alice_id ∧ t ∈ todos session'.
Proof.
  assert (Hf : fault demo_session = None) by reflexivity.
  split; [exact alice_resolved|]. split; [exact Hf|].
  exact (proj1 (create_todo_owner demo_settings alice_request demo_session
                  an_hour_later alice_id 300%N spoofed_create alice_resolved Hf)).
Defined.

(** C6, a run: alice's row is gone from the user table, her token is
    still good on the todo routes. *)
Lemma deleted_user_served_by_todo_routes_witness :
  get_user_id_from_cookie demo_settings alice_request an_hour_later
  = Return alice_id ∧
  fault session_without_alice = None ∧
  (∀ u, u ∈ users session_without_alice → user_id_of u ≠ alice_id) ∧
  get_current_user_from_cookie demo_settings alice_request session_without_alice
    an_hour_later = Raise credentials_exception ∧
  ∃ page, get_todos demo_settings demo_max_page_size alice_request session_without_alice None None
            an_hour_later = Return page.
Proof.
  assert (Hf : fault session_without_alice = None) by reflexivity.
  assert (Hgone : ∀ u, u ∈ users session_without_alice → user_id_of u ≠ alice_id).
  { intros u Hu. apply elem_of_cons in Hu as [->|Hu]; [discriminate|].
    by apply elem_of_nil in Hu. }
  split; [exact alice_resolved|]. split; [exact Hf|]. split; [exact Hgone|].
  destruct (deleted_user_served_by_todo_routes demo_settings demo_max_page_size
              alice_request
              session_without_alice an_hour_later alice_id
              alice_resolved Hf Hgone) as (Hme & Hlist & _).
  split; [exact Hme|apply Hlist].
Defined.




End ExamplesRoutes.

(** * Further properties of the code *)

(** ** The allowed origins *)

Lemma split_comma_nonnil (s : string) : split_comma s ≠ [].
Proof.
  destruct s as [|c r]; simpl; [done|].
  destruct (Ascii.eqb c ","%char); [done|]. by destruct (split_comma r).
Qed.

Lemma split_comma_no_comma (s : string) :
  contains ","%char s = false → split_comma s = [s].
Proof.
  induction s as [|c r IH]; simpl; [done|]. intros Hc.
  apply orb_false_iff in Hc as [Hc Hr]. rewrite Hc, (IH Hr). done.
Qed.

Lemma split_comma_app (x t : string) :
  contains ","%char x = false →
  split_comma (x +:+ String ","%char t) = x :: split_comma t.
Proof.
  induction x as [|c r IH]; simpl; [done|]. intros Hc.
  apply orb_false_iff in Hc as [Hc Hr]. rewrite Hc, (IH Hr). done.
Qed.

Lemma split_comma_pieces (s : string) :
  Forall (λ piece, contains ","%char piece = false) (split_comma s).
Proof.
  induction s as [|c r IH]; simpl; [by repeat constructor|].
  destruct (Ascii.eqb c ","%char) eqn:Hc; [by constructor|].
  destruct (split_comma r) as [|piece pieces].
  - constructor; [|done]. simpl. by rewrite Hc.
  - inversion IH as [|? ? Hp Hps]; subst. constructor; [|done].
    simpl. by rewrite Hc, Hp.
Qed.

Lemma split_join_comma (l : list string) :
  l ≠ [] → Forall (λ o, contains ","%char o = false) l →
  split_comma (join_comma l) = l.
Proof.
  induction l as [|x rest IH]; [done|]. intros _ Hall.
  inversion Hall as [|? ? Hx Hrest]; subst.
  destruct rest as [|y rest].
  - by apply split_comma_no_comma.
  - change (join_comma (x :: y :: rest))
      with (x +:+ String ","%char (join_comma (y :: rest))).
    rewrite split_comma_app by done. by rewrite IH.
Qed.

Section CorsFacts.
Variable isspace : ascii → bool.
Variable J : Type.
Variable json_loads : string → option J.

Lemma lstrip_head (s : string) (c : ascii) (r : string) :
  lstrip isspace s = String c r → isspace c = false.
Proof.
  induction s as [|a s IH]; simpl; [done|].
  destruct (isspace a) eqn:Ha; [done|]. by intros [= <- _].
Qed.

Lemma lstrip_fixed (c : ascii) (r : string) :
  isspace c = false → lstrip isspace (String c r) = String c r.
Proof. intros Hc. simpl. by rewrite Hc. Qed.

Lemma rstrip_head (c : ascii) (r : string) :
  isspace c = false → ∃ r', rstrip isspace (String c r) = String c r'.
Proof.
  intros Hc. simpl. destruct (rstrip isspace r); [rewrite Hc|]; eauto.
Qed.

Lemma rstrip_idem (s : string) : rstrip isspace (rstrip isspace s) = rstrip isspace s.
Proof.
  induction s as [|c r IH]; simpl; [done|].
  destruct (rstrip isspace r) as [|a r'] eqn:Hr.
  - destruct (isspace c) eqn:Hc; [done|]. simpl. by rewrite Hc.
  - change (rstrip isspace (String c (String a r')))
      with (match rstrip isspace (String a r') with
            | EmptyString => if isspace c then EmptyString else String c EmptyString
            | r'' => String c r''
            end).
    by rewrite IH.
Qed.

Lemma lstrip_strip (s : string) :
  lstrip isspace (strip isspace s) = strip isspace s.
Proof.
  unfold strip. destruct (lstrip isspace s) as [|c r] eqn:Hl; [done|].
  pose proof (lstrip_head _ _ _ Hl) as Hc.
  destruct (rstrip_head c r Hc) as [r' ->]. by apply lstrip_fixed.
Qed.

Lemma rstrip_strip (s : string) :
  rstrip isspace (strip isspace s) = strip isspace s.
Proof. apply rstrip_idem. Qed.

Lemma contains_lstrip (c : ascii) (s : string) :
  contains c s = false → contains c (lstrip isspace s) = false.
Proof.
  induction s as [|a r IH]; simpl; [done|]. intros Hc.
  apply orb_false_iff in Hc as [Ha Hr].
  destruct (isspace a); [by apply IH|]. simpl. by rewrite Ha, Hr.
Qed.

Lemma contains_rstrip (c : ascii) (s : string) :
  contains c s = false → contains c (rstrip isspace s) = false.
Proof.
  induction s as [|a r IH]; simpl; [done|]. intros Hc.
  apply orb_false_iff in Hc as [Ha Hr]. specialize (IH Hr).
  destruct (rstrip isspace r) as [|b r'].
  - destruct (isspace a); [done|]. simpl. by rewrite Ha.
  - change (contains c (String a (String b r')))
      with (Ascii.eqb a c || contains c (String b r')).
    by rewrite Ha, IH.
Qed.

Lemma strip_clean (piece : string) :
  contains ","%char piece = false → strip isspace piece ≠ "" →
  clean_origin isspace (strip isspace piece).
Proof.
  intros Hc Hne. split; [done|]. split; [apply lstrip_strip|].
  split; [apply rstrip_strip|]. by apply contains_rstrip, contains_lstrip.
Qed.

Lemma strip_of_clean (o : string) : clean_origin isspace o → strip isspace o = o.
Proof. intros (_ & Hl & Hr & _). unfold strip. by rewrite Hl, Hr. Qed.

Lemma split_origins_elem (val o : string) :
  o ∈ split_origins isspace val ↔
  ∃ piece, piece ∈ split_comma val ∧ strip isspace piece = o ∧ o ≠ "".
Proof.
  unfold split_origins. rewrite list_elem_of_omap. split.
  - intros (piece & Hin & Ho). exists piece. split; [done|].
    destruct (String.eqb (strip isspace piece) "") eqn:He; [done|].
    injection Ho as <-. by apply String_eqb_false in He.
  - intros (piece & Hin & <- & Hne). exists piece. split; [done|].
    apply String_eqb_false in Hne. by rewrite Hne.
Qed.

Lemma split_origins_clean (l : list string) :
  Forall (clean_origin isspace) l → omap (λ origin,
          if String.eqb (strip isspace origin) "" then None
          else Some (strip isspace origin)) l = l.
Proof.
  induction 1 as [|o l Ho _ IH]; [done|]. simpl.
  rewrite (strip_of_clean o Ho). destruct Ho as (Hne & _).
  apply String_eqb_false in Hne. rewrite Hne. simpl. f_equal. exact IH.
Qed.

Lemma cors_origins_text (text : string) :
  text ≠ "" → split_as_text J json_loads (strip isspace text) →
  cors_origins isspace J json_loads (CorsStr text)
  = Origins (split_origins isspace (strip isspace text)).
Proof.
  intros Hne Hsplit. destruct text as [|c r]; [done|].
  unfold cors_origins.
  destruct Hsplit as [-> | ->]; [done|].
  by destruct (String.prefix "[" _ && ends_with_bracket _).
Qed.

(** X1.  A non-empty text that is not a bracketed list [json.loads] accepts
    is cut at its commas: every origin returned is non-empty, has no
    whitespace around it and no comma in it, and every piece between commas
    that is more than whitespace is returned, stripped. *)
Theorem cors_origins_of_text (text : string) :
  text ≠ "" → split_as_text J json_loads (strip isspace text) →
  ∃ l, cors_origins isspace J json_loads (CorsStr text) = Origins l ∧
       Forall (clean_origin isspace) l ∧
       ∀ piece, piece ∈ split_comma (strip isspace text) →
                strip isspace piece ≠ "" → strip isspace piece ∈ l.
Proof.
  intros Hne Hsplit. eexists. split; [by apply cors_origins_text|]. split.
  - apply list.Forall_forall. intros o Ho.
    apply split_origins_elem in Ho as (piece & Hin & <- & Hne').
    apply strip_clean; [|done].
    pose proof (split_comma_pieces (strip isspace text)) as Hpieces.
    rewrite list.Forall_forall in Hpieces. by apply Hpieces.
  - intros piece Hin Hne'. apply split_origins_elem. eauto.
Qed.

Lemma join_comma_nonempty (l : list string) :
  l ≠ [] → Forall (clean_origin isspace) l → join_comma l ≠ "".
Proof.
  destruct l as [|x rest]; [done|]. intros _ Hall.
  inversion Hall as [|? ? (Hx & _) _]; subst.
  destruct x as [|c r]; [done|]. by destruct rest.
Qed.

Lemma lstrip_join_comma (l : list string) :
  Forall (clean_origin isspace) l → lstrip isspace (join_comma l) = join_comma l.
Proof.
  destruct l as [|x rest]; [done|]. intros Hall.
  inversion Hall as [|? ? (Hx & Hl & _) _]; subst.
  destruct x as [|c r]; [done|]. pose proof (lstrip_head _ _ _ Hl) as Hc.
  destruct rest; simpl; by rewrite Hc.
Qed.

Lemma rstrip_app (s t : string) :
  t ≠ "" → rstrip isspace t = t → rstrip isspace (s +:+ t) = s +:+ t.
Proof.
  intros Hne Ht. induction s as [|c s IH]; [exact Ht|].
  change (rstrip isspace (String c (s +:+ t)) = String c (s +:+ t)).
  simpl. rewrite IH.
  destruct (s +:+ t) eqn:Hst; [|done].
  destruct s; [by destruct Hne|done].
Qed.

Lemma rstrip_join_comma (l : list string) :
  l ≠ [] → Forall (clean_origin isspace) l → rstrip isspace (join_comma l) = join_comma l.
Proof.
  induction l as [|x rest IH]; [done|]. intros _ Hall.
  inversion Hall as [|? ? Hx Hrest]; subst.
  destruct rest as [|y rest]; [by destruct Hx as (_ & _ & ? & _)|].
  change (join_comma (x :: y :: rest))
    with (x +:+ String ","%char (join_comma (y :: rest))).
  apply rstrip_app; [done|].
  change (rstrip isspace (String ","%char (join_comma (y :: rest))))
    with (match rstrip isspace (join_comma (y :: rest)) with
          | EmptyString =>
              if isspace ","%char then EmptyString else String ","%char EmptyString
          | r' => String ","%char r'
          end).
  rewrite IH by done.
  pose proof (join_comma_nonempty (y :: rest) ltac:(done) Hrest) as Hne.
  by destruct (join_comma (y :: rest)).
Qed.

(** X2.  A list of origins written out with commas between them reads back
    as that list: for a non-empty list of origins that are non-empty, free
    of commas and of surrounding whitespace, [cors_origins] of their
    comma-joined text is the list itself (unless the text is a bracketed
    list [json.loads] accepts). *)
Theorem cors_origins_join (l : list string) :
  l ≠ [] → Forall (clean_origin isspace) l → split_as_text J json_loads (join_comma l) →
  cors_origins isspace J json_loads (CorsStr (join_comma l)) = Origins l.
Proof.
  intros Hne Hall Hsplit.
  assert (Hstrip : strip isspace (join_comma l) = join_comma l).
  { unfold strip. rewrite lstrip_join_comma by done. by apply rstrip_join_comma. }
  rewrite cors_origins_text; [|by apply join_comma_nonempty|by rewrite Hstrip].
  rewrite Hstrip. unfold split_origins. rewrite split_join_comma.
  - f_equal. by apply split_origins_clean.
  - done.
  - eapply list.Forall_impl; [exact Hall|]. by intros o (_ & _ & _ & ?).
Qed.

(** X3.  An empty setting, text or list, gives the two local origins; a
    non-empty list is returned as it is; but a text that is non-empty and
    all whitespace gives no origin at all. *)
Theorem cors_origins_empty_and_blank :
  cors_origins isspace J json_loads (CorsStr "") = Origins default_cors_origins ∧
  cors_origins isspace J json_loads (CorsList []) = Origins default_cors_origins ∧
  (∀ o l, cors_origins isspace J json_loads (CorsList (o :: l)) = Origins (o :: l)) ∧
  (∀ text, text ≠ "" → strip isspace text = "" →
           cors_origins isspace J json_loads (CorsStr text) = Origins []).
Proof.
  repeat split; try done. intros text Hne Hblank.
  rewrite cors_origins_text; [by rewrite Hblank|done|].
  left. by rewrite Hblank.
Qed.

End CorsFacts.

Section CorsRuns.

(** X1, a run: spaces around the commas, an empty piece and a trailing
    comma. *)
Lemma cors_origins_of_text_witness :
  " http://a.example , http://b.example,, " ≠ "" ∧
  split_as_text unit no_json
    (strip ascii_isspace " http://a.example , http://b.example,, ") ∧
  cors_origins ascii_isspace unit no_json
    (CorsStr " http://a.example , http://b.example,, ")
  = Origins ["http://a.example"; "http://b.example"].
Proof.
  assert (Hne : " http://a.example , http://b.example,, " ≠ "") by discriminate.
  assert (Hsplit : split_as_text unit no_json
            (strip ascii_isspace " http://a.example , http://b.example,, "))
    by (right; reflexivity).
  split; [exact Hne|]. split; [exact Hsplit|].
  destruct (cors_origins_of_text ascii_isspace unit no_json _ Hne Hsplit)
    as (l & Hl & _).
  rewrite Hl. symmetry. revert Hl. vm_compute. intros [= <-]. reflexivity.
Defined.

(** X2, a run: two origins. *)
Lemma cors_origins_join_witness :
  ["http://a.example"; "http://b.example"] ≠ [] ∧
  Forall (clean_origin ascii_isspace) ["http://a.example"; "http://b.example"] ∧
  split_as_text unit no_json (join_comma ["http://a.example"; "http://b.example"]) ∧
  cors_origins ascii_isspace unit no_json
    (CorsStr "http://a.example,http://b.example")
  = Origins ["http://a.example"; "http://b.example"].
Proof.
  assert (Hne : ["http://a.example"; "http://b.example"] ≠ []) by discriminate.
  assert (Hall : Forall (clean_origin ascii_isspace)
                   ["http://a.example"; "http://b.example"]).
  { repeat constructor; try discriminate; reflexivity. }
  assert (Hsplit : split_as_text unit no_json
            (join_comma ["http://a.example"; "http://b.example"]))
    by (right; reflexivity).
  split; [exact Hne|]. split; [exact Hall|]. split; [exact Hsplit|].
  exact (cors_origins_join ascii_isspace unit no_json _ Hne Hall Hsplit).
Defined.

End CorsRuns.

(** ** Hashing and verifying a password *)

Section PasswordFacts.
Context `{Pbkdf2}.

(** X4.  A digest made by [get_password_hash] verifies the password it was
    made from, and verifies another password of admissible size exactly
    when the scheme derives the same checksum from it under the digest's
    salt and rounds. *)
Theorem password_hash_round_trip (new_salt password digest : string) :
  get_password_hash new_salt password = Return digest →
  verify_password password digest = Return true ∧
  ∀ other, secret_accepted other →
    verify_password other digest
    = Return (String.eqb (calc_checksum other new_salt default_rounds)
                (calc_checksum password new_salt default_rounds)).
Proof.
  unfold get_password_hash, pwd_context_hash. intros Hhash.
  destruct (validate_secret password) as [[]|e] eqn:Hsize; [|done].
  simpl in Hhash. injection Hhash as <-.
  assert (Hverify : ∀ other, secret_accepted other →
            verify_password other (pbkdf2_digest new_salt password)
            = Return (String.eqb (calc_checksum other new_salt default_rounds)
                        (calc_checksum password new_salt default_rounds))).
  { intros other Hother. apply validate_secret_Return in Hother.
    unfold verify_password, pwd_context_verify, identify, pbkdf2_digest.
    rewrite to_string_ident, Hother, from_to_string. done. }
  split; [|done].
  rewrite Hverify by by apply validate_secret_Return.
  by rewrite String.eqb_refl.
Qed.

End PasswordFacts.

(** ** Minting a token *)

Section MintFacts.
Context `{Jose}.
Variable settings : Settings.

(** X5.  [create_access_token] works on a copy: the store gains one
    dictionary, at a fresh address, and every dictionary that was in it,
    the caller's among them, is left as it was. *)
Theorem create_access_token_store (h : gmap nat (gmap string value)) (data : nat)
  (expires_delta : option timedelta) (now : datetime) :
  dom (create_access_token settings h data expires_delta now).1
  = dom h ∪ {[fresh (dom h)]} ∧
  (fresh (dom h) ∉ dom h) ∧
  ∀ l, l ∈ dom h →
       (create_access_token settings h data expires_delta now).1 !! l = h !! l.
Proof.
  rewrite create_access_token_eq. simpl. split; [|split].
  - rewrite dom_insert_L. apply (comm_L (∪)).
  - apply is_fresh.
  - intros l Hl. apply lookup_insert_ne. intros <-. by apply (is_fresh (dom h)).
Qed.

(** X6.  The token is signed over the copy, in which the entry ["exp"] is
    the computed expiry in whole seconds, whatever the caller's dictionary
    held there: the time of the call plus the given duration when it is not
    zero, plus the configured days when none is given; the entries other
    than the three time claims are the caller's. *)
Theorem create_access_token_payload (h : gmap nat (gmap string value)) (data : nat)
  (expires_delta : option timedelta) (now : datetime) :
  let payload : gmap string value :=
    (create_access_token settings h data expires_delta now).1 !!! fresh (dom h) in
  (create_access_token settings h data expires_delta now).2
  = jws_sign payload (SECRET_KEY settings) (ALGORITHM settings) ∧
  payload !! "exp" = Some (VInt (timegm (expiry settings expires_delta now))) ∧
  (∀ d, d ≠ 0 → expiry settings (Some d) now = now + d) ∧
  expiry settings None now = now + timedelta_days (ACCESS_TOKEN_EXPIRE_DAYS settings) ∧
  ∀ k, k ≠ "exp" → k ≠ "iat" → k ≠ "nbf" → payload !! k = (h !!! data) !! k.
Proof.
  intros payload. unfold payload. rewrite create_access_token_eq. simpl.
  rewrite lookup_total_insert_eq.
  split; [done|]. split; [apply claims_to_sign_exp|].
  split; [intros d Hd; by apply expiry_explicit|]. split; [done|].
  intros k Hexp Hiat Hnbf. unfold claims_to_sign, convert_time_claims.
  rewrite !convert_time_claim_ne by done. by apply lookup_insert_ne.
Qed.

End MintFacts.

(** ** What a token must be to pass *)

Section ForgeryFacts.
Context `{Jose, UuidText}.
Variable settings : Settings.

Lemma verify_token_jws_Raise (now : datetime) (token : string) (e : exn) :
  jws_verify token (SECRET_KEY settings) [ALGORITHM settings] = Raise e →
  verify_token settings now token = None.
Proof.
  intros Hv. rewrite verify_token_unfold. unfold jwt_decode. by rewrite Hv.
Qed.

(** X7.  [verify_token] turns down a text that does not load as a token, a
    token whose header names another algorithm than the configured one, and
    a token whose signature is not the MAC of its signing input under the
    server's key. *)
Theorem verify_token_rejects_forgery (now : datetime) (token : string) :
  (load token = None → verify_token settings now token = None) ∧
  (∀ p, load token = Some p → jws_alg p ≠ VStr (ALGORITHM settings) →
        verify_token settings now token = None) ∧
  (∀ p, load token = Some p →
        mac (ALGORITHM settings) (SECRET_KEY settings) (jws_signing_input p)
        ≠ jws_signature p →
        verify_token settings now token = None).
Proof.
  split; [|split].
  - intros Hl. eapply verify_token_jws_Raise. unfold jws_verify. by rewrite Hl.
  - intros p Hl Halg.
    assert (∃ e, jws_verify token (SECRET_KEY settings) [ALGORITHM settings]
                 = Raise e) as [e He]; [|by eapply verify_token_jws_Raise].
    unfold jws_verify. rewrite Hl.
    destruct (negb (truthy (jws_alg p))); [eauto|].
    destruct (jws_alg p) as [| | |alg|]; eauto.
    rewrite bool_decide_false; [eauto|].
    intros Hin. apply list_elem_of_singleton in Hin. congruence.
  - intros p Hl Hsig.
    assert (∃ e, jws_verify token (SECRET_KEY settings) [ALGORITHM settings]
                 = Raise e) as [e He]; [|by eapply verify_token_jws_Raise].
    unfold jws_verify. rewrite Hl.
    destruct (negb (truthy (jws_alg p))); [eauto|].
    destruct (jws_alg p) as [| | |alg|]; eauto.
    destruct (bool_decide (alg ∈ [ALGORITHM settings])) eqn:Hin; [|eauto].
    apply bool_decide_eq_true, list_elem_of_singleton in Hin as ->.
    destruct (supported (ALGORITHM settings)); [|eauto].
    apply String_eqb_false in Hsig. rewrite Hsig. eauto.
Qed.

End ForgeryFacts.

(** ** Logging in, and the session that follows *)

Lemma timegm_add_days (t : datetime) (d : Z) :
  timegm (t + timedelta_days d) = timegm t + d * 24 * 60 * 60.
Proof. unfold timegm, timedelta_days, second. by rewrite Z.div_add. Qed.

Lemma expiry_of_days (settings : Settings) (now : datetime) :
  expiry settings (Some (timedelta_days (jwt_expiry_days settings))) now
  = now + timedelta_days (jwt_expiry_days settings).
Proof.
  unfold expiry. simpl.
  destruct (Z.eqb (timedelta_days (jwt_expiry_days settings)) 0) eqn:Hz; [|done].
  simpl. done.
Qed.

Section LoginSession.
Context `{Pbkdf2, Jose, UuidText}.
Variable settings : Settings.

Lemma login_claims_private (user : User) : private_claims_only (login_claims user).
Proof.
  repeat split; try done. intros k t Hk. unfold login_claims in Hk.
  apply lookup_insert_Some in Hk as [[_ [=]]|[_ Hk]].
  by apply lookup_singleton_Some in Hk as [_ [=]].
Qed.

Lemma jws_sign_supported (claims : gmap string value) (key alg token : string) :
  jws_sign claims key alg = Return token → supported alg = true.
Proof. unfold jws_sign. by destruct (supported alg). Qed.

Lemma authenticate_user_Raise (session : AsyncSession) (email_ password : string)
  (e : exn) :
  authenticate_user session email_ password = Raise e →
  ∃ cls msg, e = Exception cls msg.
Proof.
  unfold authenticate_user, execute_select_users.
  destruct (fault session); simpl; [intros [= <-]; eauto|].
  destruct (first _) as [user|]; [|done]. simpl.
  unfold verify_password, pwd_context_verify, validate_secret.
  destruct (identify _); [|intros [= <-]; eauto].
  destruct (_ <? _)%nat; simpl; [intros [= <-]; eauto|].
  destruct (from_string _) as [h|]; [|intros [= <-]; eauto].
  destruct (checksum h); [|intros [= <-]; eauto].
  simpl. by destruct (negb _).
Qed.

Lemma create_access_token_Raise (h : gmap nat (gmap string value)) (data : nat)
  (expires_delta : option timedelta) (now : datetime) (e : exn) :
  (create_access_token settings h data expires_delta now).2 = Raise e →
  ∃ cls msg, e = Exception cls msg.
Proof.
  rewrite create_access_token_eq. simpl. unfold jws_sign.
  destruct (supported _); [|intros [= <-]; eauto].
  destruct (json_serializable _); [done|intros [= <-]; eauto].
Qed.

(** What a successful login is made of. *)
Lemma login_user_Return (login_request : LoginRequest) (session : AsyncSession)
  (now : datetime) (resp : LoginResponse) :
  login_user settings login_request session now = Return resp →
  ∃ user token,
    authenticate_user session (lr_email login_request) (lr_password login_request)
    = Return (Some user) ∧
    (create_access_token settings {[ 0%nat := login_claims user ]} 0%nat
       (Some (timedelta_days (ACCESS_TOKEN_EXPIRE_DAYS settings))) now).2
    = Return token ∧
    set_cookie resp
    = {| ck_key := "access_token"; ck_value := token; ck_httponly := true;
         ck_secure := true; ck_samesite := "none";
         ck_max_age := ACCESS_TOKEN_EXPIRE_DAYS settings * 24 * 60 * 60;
         ck_path := "/" |} ∧
    body_user_id resp = str_of_uuid (user_id_of user) ∧
    access_token resp = token.
Proof.
  unfold login_user, try_except.
  destruct (authenticate_user _ _ _) as [[user|]|e]; cbn [mbind result_bind];
    [|done|by destruct e].
  unfold login_claims.
  destruct (create_access_token settings _ _ _ now).2 as [token|e] eqn:Htoken;
    cbn [mbind result_bind]; [|by destruct e].
  intros [= <-]. exists user, token. done.
Qed.

(** X8.  After a successful login, a request that carries the cookie the
    response sets is resolved to the id of the user who logged in, at every
    time until the cookie's max-age, counted in whole seconds from the
    login, has run out, and to nobody after that -- provided the user's
    email is not empty: with an empty email the login succeeds and its token
    is never accepted. *)
Theorem login_cookie_resolves (login_request : LoginRequest) (session : AsyncSession)
  (issued : datetime) (resp : LoginResponse) :
  login_user settings login_request session issued = Return resp →
  access_token resp ≠ "" →
  ∃ user,
    authenticate_user session (lr_email login_request) (lr_password login_request)
    = Return (Some user) ∧
    body_user_id resp = str_of_uuid (user_id_of user) ∧
    ck_value (set_cookie resp) = access_token resp ∧
    ∀ now,
      get_user_id_from_cookie settings
        {| cookies := {[ ck_key (set_cookie resp) := ck_value (set_cookie resp) ]} |}
        now
      = if negb (String.eqb (email user) "") &&
           (timegm now <=? timegm issued + ck_max_age (set_cookie resp))
        then Return (user_id_of user)
        else Raise credentials_exception.
Proof.
  intros Hlogin Hne.
  apply login_user_Return in Hlogin
    as (user & token & Hauth & Htoken & Hcookie & Hbody & Haccess).
  exists user. rewrite Hcookie. simpl. rewrite Haccess in *.
  split; [done|]. split; [done|]. split; [done|]. intros now.
  assert (Hs : supported (ALGORITHM settings) = true).
  { rewrite create_access_token_eq in Htoken. by eapply jws_sign_supported. }
  rewrite create_access_token_Return in Htoken;
    [|done|rewrite lookup_total_singleton_eq; apply login_claims_private].
  injection Htoken as Htoken. rewrite lookup_total_singleton_eq in Htoken.
  unfold ACCESS_TOKEN_EXPIRE_DAYS in *.
  rewrite expiry_of_days, timegm_add_days in Htoken.
  unfold get_user_id_from_cookie. simpl. rewrite lookup_singleton_eq.
  apply String_eqb_false in Hne. rewrite Hne. rewrite <- Htoken.
  destruct (String.eqb (email user) "") eqn:Hmail; simpl.
  - apply String_eqb_true in Hmail.
    rewrite verify_token_signed;
      [|done|by apply json_serializable_private, login_claims_private].
    assert (Hnone : token_data_of
              (<["exp" := VInt (timegm issued + jwt_expiry_days settings * 24 * 60 * 60)]>
                 (login_claims user)) = None).
    { unfold token_data_of, login_claims. rewrite lookup_insert_ne by done.
      rewrite lookup_insert_eq, Hmail. by destruct (_ !! "user_id") as [[]|]. }
    rewrite Hnone. by destruct (validate_claims _ _).
  - apply String_eqb_false in Hmail.
    rewrite (verify_token_of_payload settings (login_claims user) _ now
               (email user) (str_of_uuid (user_id_of user)) (user_id_of user));
      [|done|apply login_claims_private|done|done|done|apply uuid_of_str_of_uuid].
    by destruct (_ <=? _).
Qed.

(** X9.  With the store reachable, the login answers an unknown email,
    whatever the password, with a 401; and it answers with the same 401 and
    the same text when the first row that has the email returns [false] on
    verifying the password.  When that verification raises, the answer is
    another one: a 500 that carries the hasher's message.  So a password
    over the library's size bound is answered 500 for a known email whose
    stored hash is of the scheme, and 401 for an unknown one. *)
Theorem login_user_bad_credentials (login_request : LoginRequest)
  (session : AsyncSession) (now : datetime) :
  fault session = None →
  ((∀ u, u ∈ users session → email u ≠ lr_email login_request) →
   login_user settings login_request session now
   = Raise (HTTPException 401 "Incorrect email or password"
              [("WWW-Authenticate", "Bearer")])) ∧
  (∀ user rest,
     filter (λ u, String.eqb (email u) (lr_email login_request) = true)
       (users session) = user :: rest →
     (verify_password (lr_password login_request) (hashed_password user)
      = Return false →
      login_user settings login_request session now
      = Raise (HTTPException 401 "Incorrect email or password"
                 [("WWW-Authenticate", "Bearer")])) ∧
     (∀ cls msg,
        verify_password (lr_password login_request) (hashed_password user)
        = Raise (Exception cls msg) →
        login_user settings login_request session now
        = Raise (HTTPException 500 ("Internal Server Error: " +:+ msg) [])) ∧
     (identify (hashed_password user) = true →
      ¬ secret_accepted (lr_password login_request) →
      login_user settings login_request session now
      = Raise (HTTPException 500
                 "Internal Server Error: password exceeds maximum allowed size"
                 []))).
Proof.
  intros Hf.
  pose proof (authenticate_user_unfold session (lr_email login_request)
                (lr_password login_request) Hf) as Hauth.
  split.
  - intros Hno. apply login_user_unauthorized. rewrite Hauth.
    destruct (first _) as [user|] eqn:Hfirst; [|done].
    apply first_filter_Some in Hfirst as [Hin Hmail].
    apply String_eqb_true in Hmail. by destruct (Hno user Hin).
  - intros user rest Hrows. rewrite Hrows in Hauth. simpl in Hauth.
    assert (Hraise : ∀ cls msg,
              verify_password (lr_password login_request) (hashed_password user)
              = Raise (Exception cls msg) →
              login_user settings login_request session now
              = Raise (HTTPException 500 ("Internal Server Error: " +:+ msg) [])).
    { intros cls msg Hv. rewrite Hv in Hauth. unfold login_user. by rewrite Hauth. }
    split; [|split].
    + intros Hv. apply login_user_unauthorized. by rewrite Hauth, Hv.
    + exact Hraise.
    + intros Hid Hsz. apply (Hraise "PasswordSizeError").
      unfold verify_password, pwd_context_verify, validate_secret. rewrite Hid.
      unfold secret_accepted in Hsz.
      by rewrite (proj2 (Nat.ltb_lt _ _)) by lia.
Qed.

(** X10.  Whatever goes wrong in a login, the caller sees an HTTP error,
    401 or 500, never another exception; and it is 401 exactly when the
    credentials were turned down. *)
Theorem login_user_failure (login_request : LoginRequest) (session : AsyncSession)
  (now : datetime) (e : exn) :
  login_user settings login_request session now = Raise e →
  ∃ status detail headers,
    e = HTTPException status detail headers ∧
    (status = 401 ∨ status = 500) ∧
    (status = 401 ↔
     authenticate_user session (lr_email login_request) (lr_password login_request)
     = Return None).
Proof.
  unfold login_user, try_except.
  destruct (authenticate_user _ _ _) as [[user|]|e'] eqn:Hauth;
    cbn [mbind result_bind].
  - destruct (create_access_token settings _ _ _ now).2 as [token|e''] eqn:Htoken;
      cbn [mbind result_bind]; [done|].
    apply create_access_token_Raise in Htoken as (cls & msg & ->).
    intros [= <-]. eexists _, _, _. split; [done|]. split; [by right|].
    split; [done|done].
  - intros [= <-]. eexists _, _, _. split; [done|]. split; [by left|]. done.
  - apply authenticate_user_Raise in Hauth as Hexn. destruct Hexn as (cls & msg & ->).
    intros [= <-]. eexists _, _, _. split; [done|]. split; [by right|].
    split; [done|done].
Qed.

End LoginSession.

(** ** Who a request is, route by route *)

Section IdentityFacts.
Context `{Jose, UuidText}.
Variable settings : Settings.
Variable max_page_size : Z.

(** X11.  [get_current_user_from_cookie] fails in one way only, with the
    401 of [credentials_exception], also when the store cannot be read;
    and when it returns a user, that user is a row of the user table whose
    id is the one [get_user_id_from_cookie] resolves the same request to. *)
Theorem get_current_user_from_cookie_outcome (request : Request)
  (session : AsyncSession) (now : datetime) :
  (∀ e, get_current_user_from_cookie settings request session now = Raise e →
        e = credentials_exception) ∧
  (∀ msg, fault session = Some msg →
          get_current_user_from_cookie settings request session now
          = Raise credentials_exception) ∧
  (∀ current_user,
     get_current_user_from_cookie settings request session now = Return current_user →
     ∃ user, user ∈ users session ∧
             current_user = UserRead_model_validate user ∧
             get_user_id_from_cookie settings request now
             = Return (ur_id current_user)).
Proof.
  rewrite get_current_user_from_cookie_eq. split; [|split].
  - intros e. destruct (get_user_id_from_cookie settings request now); [|congruence].
    destruct (fault session); [congruence|]. destruct (first _); congruence.
  - intros msg Hf. rewrite Hf.
    by destruct (get_user_id_from_cookie settings request now).
  - intros current_user.
    destruct (get_user_id_from_cookie settings request now) as [uid|]; [|done].
    destruct (fault session); [done|].
    destruct (first _) as [user|] eqn:Hfirst; [|done]. intros [= <-].
    apply first_filter_Some in Hfirst as [Hin Hid]. exists user.
    split; [done|]. split; [done|]. simpl. by rewrite Hid.
Qed.

(** X12.  A todo route touches nothing before the caller is known: with no
    [access_token] cookie, with an empty one, or with one [verify_token]
    turns down, each of the seven routes fails with the 401 of
    [credentials_exception], whatever the store holds and even when it
    cannot be reached. *)
Theorem todo_routes_authenticate_first (request : Request) (session : AsyncSession)
  (now : datetime) (todo_id new_id : uuid) (todo_create : TodoCreate)
  (todo_update : TodoUpdate) (todo_patch : TodoPatch) (skip limit : option Z) :
  cookies request !! "access_token" = None ∨
  cookies request !! "access_token" = Some "" ∨
  (∃ token, cookies request !! "access_token" = Some token ∧
            verify_token settings now token = None) →
  create_todo settings request session todo_create new_id now
  = Raise credentials_exception ∧
  get_todo settings todo_id request session now = Raise credentials_exception ∧
  get_todos settings max_page_size request session skip limit now
  = Raise credentials_exception ∧
  update_todo settings todo_id todo_update request session now
  = Raise credentials_exception ∧
  patch_todo settings todo_id todo_patch request session now
  = Raise credentials_exception ∧
  delete_todo settings todo_id request session now = Raise credentials_exception ∧
  toggle_todo_completion settings todo_id request session now
  = Raise credentials_exception.
Proof.
  intros Hcookie.
  assert (Hid : get_user_id_from_cookie settings request now
                = Raise credentials_exception).
  { unfold get_user_id_from_cookie.
    destruct Hcookie as [-> | [-> | (token & -> & Hv)]]; [done|done|].
    rewrite Hv. by destruct (String.eqb token ""). }
  unfold create_todo, get_todo, get_todos, update_todo, patch_todo, delete_todo,
    toggle_todo_completion.
  by rewrite Hid.
Qed.

End IdentityFacts.

(** ** Registering *)

(** X13.  A failed registration reaches the caller as an HTTP error only:
    the service's own HTTP error unchanged, or else a 500 with a fixed text
    that tells nothing of the exception it stands for. *)
Theorem register_user_failure (created : result UserRead) (e : exn) :
  register_user created = Raise e →
  ∃ status detail headers,
    e = HTTPException status detail headers ∧
    (created = Raise e ∨
     (∃ cls msg, created = Raise (Exception cls msg)) ∧
     status = 500 ∧ detail = "An error occurred during user registration").
Proof.
  unfold register_user, try_except.
  destruct created as [u|[status detail headers|cls msg]]; [done| |].
  - intros [= <-]. eexists _, _, _. split; [done|]. by left.
  - intros [= <-]. eexists _, _, _. split; [done|]. right. eauto.
Qed.

(** ** Runs of the further properties *)

Section FurtherRuns.
#[local] Existing Instance Reference.pbkdf2.
#[local] Existing Instance Reference.jose.
#[local] Existing Instance Reference.uuid_text.

(** X4, a run: alice's digest, her password and bob's. *)
Lemma password_hash_round_trip_witness :
  get_password_hash "salt-a" "wonderland" = Return (hashed_password alice) ∧
  verify_password "wonderland" (hashed_password alice) = Return true ∧
  verify_password "builder" (hashed_password alice) = Return false.
Proof.
  assert (Hhash : get_password_hash "salt-a" "wonderland"
                  = Return (hashed_password alice)) by reflexivity.
  split; [exact Hhash|].
  destruct (password_hash_round_trip "salt-a" "wonderland" _ Hhash)
    as [Hown Hother].
  split; [exact Hown|]. rewrite Hother; [reflexivity|].
  unfold secret_accepted. apply Nat.leb_le. reflexivity.
Defined.

(** X8, a run: alice logs in at time 0 and comes back an hour later. *)
Lemma login_cookie_resolves_witness :
  ∃ resp,
    login_user demo_settings alice_login demo_session 0 = Return resp ∧
    access_token resp ≠ "" ∧
    get_user_id_from_cookie demo_settings
      {| cookies := {[ ck_key (set_cookie resp) := ck_value (set_cookie resp) ]} |}
      an_hour_later
    = Return alice_id.
Proof.
  assert (Hlogin : ∃ resp,
            login_user demo_settings alice_login demo_session 0 = Return resp ∧
            access_token resp ≠ "").
  { eexists. split; [vm_compute; reflexivity|]. vm_compute. discriminate. }
  destruct Hlogin as (resp & Hlogin & Hne). exists resp.
  split; [exact Hlogin|]. split; [exact Hne|].
  destruct (login_cookie_resolves demo_settings alice_login demo_session 0 resp
              Hlogin Hne) as (user & Hauth & _ & _ & Hresolve).
  rewrite Hresolve.
  assert (Huser : user = alice).
  { revert Hauth. vm_compute. intros [= <-]. reflexivity. }
  rewrite Huser.
  apply login_user_Return in Hlogin as (u & token & _ & _ & Hcookie & _ & _).
  rewrite Hcookie. reflexivity.
Defined.

(** X9, a run: carol is unknown, alice mistypes; then both send a
    password over the size bound. *)
Lemma login_user_bad_credentials_witness :
  fault demo_session = None ∧
  login_user demo_settings carol_login demo_session 0
  = login_user demo_settings alice_wrong_login demo_session 0 ∧
  login_user demo_settings carol_oversized_login demo_session 0
  = Raise (HTTPException 401 "Incorrect email or password"
             [("WWW-Authenticate", "Bearer")]) ∧
  login_user demo_settings alice_oversized_login demo_session 0
  = Raise (HTTPException 500
             "Internal Server Error: password exceeds maximum allowed size" []).
Proof.
  assert (Hf : fault demo_session = None) by reflexivity.
  assert (Hcarol : ∀ u, u ∈ users demo_session → email u ≠ "carol@example.com").
  { intros u Hu.
    apply elem_of_cons in Hu as [->|Hu]; [discriminate|].
    apply elem_of_cons in Hu as [->|Hu]; [discriminate|].
    by apply elem_of_nil in Hu. }
  split; [exact Hf|]. split; [|split].
  - rewrite (proj1 (login_user_bad_credentials demo_settings carol_login
                      demo_session 0 Hf) Hcarol).
    symmetry.
    apply (proj2 (login_user_bad_credentials demo_settings alice_wrong_login
                    demo_session 0 Hf) alice []); [reflexivity|].
    vm_compute. reflexivity.
  - exact (proj1 (login_user_bad_credentials demo_settings carol_oversized_login
                    demo_session 0 Hf) Hcarol).
  - apply (proj2 (login_user_bad_credentials demo_settings alice_oversized_login
                    demo_session 0 Hf) alice []); [reflexivity|reflexivity|].
    unfold secret_accepted. apply Nat.lt_nge, Nat.ltb_lt. vm_compute. reflexivity.
Defined.

(** X10, a run: the store is down. *)
Lemma login_user_failure_witness :
  ∃ e, login_user demo_settings alice_login
         {| users := [alice]; todos := []; fault := Some "connection refused" |} 0
       = Raise e ∧
       ∃ detail headers, e = HTTPException 500 detail headers.
Proof.
  eexists. split; [reflexivity|].
  destruct (login_user_failure demo_settings alice_login
              {| users := [alice]; todos := []; fault := Some "connection refused" |}
              0 _ eq_refl)
    as (status & detail & headers & He & _ & _).
  injection He as <- <- <-. eauto.
Defined.

(** X12, a run: a request without cookies. *)
Lemma todo_routes_authenticate_first_witness :
  cookies {| cookies := ∅ |} !! "access_token" = None ∧
  get_todos demo_settings demo_max_page_size {| cookies := ∅ |} demo_session
    None None an_hour_later
  = Raise credentials_exception ∧
  delete_todo demo_settings 100%N {| cookies := ∅ |} demo_session an_hour_later
  = Raise credentials_exception.
Proof.
  assert (Hno : cookies {| cookies := ∅ |} !! "access_token" = None) by reflexivity.
  split; [exact Hno|].
  destruct (todo_routes_authenticate_first demo_settings demo_max_page_size
              {| cookies := ∅ |} demo_session an_hour_later 100%N 300%N
              spoofed_create demo_update demo_patch None None (or_introl Hno))
    as (_ & _ & Hlist & _ & _ & Hdelete & _).
  split; [exact Hlist|exact Hdelete].
Defined.

(** X13, a run: the service fails on a duplicate key. *)
Lemma register_user_failure_witness :
  register_user (Raise (Exception "IntegrityError" "duplicate key value"))
  = Raise (HTTPException 500 "An error occurred during user registration" []) ∧
  ∃ status detail headers,
    HTTPException 500 "An error occurred during user registration" []
    = HTTPException status detail headers ∧ status = 500.
Proof.
  assert (Hreg : register_user (Raise (Exception "IntegrityError" "duplicate key value"))
                 = Raise (HTTPException 500
                            "An error occurred during user registration" []))
    by reflexivity.
  split; [exact Hreg|].
  destruct (register_user_failure _ _ Hreg)
    as (status & detail & headers & He & [Hsame | (_ & Hstatus & _)]);
    [discriminate Hsame|].
  exists status, detail, headers. split; [exact He|exact Hstatus].
Defined.

End FurtherRuns.
